(** * The WebRTC signaling service (src/services/webrtc.ts)

    A shallow embedding of [WebRTCService]: the insertion-ordered room
    registry ([this.rooms], a JavaScript [Map]), the socket.io transport
    the handlers talk to, the event handlers, [handleDisconnect] and
    [getActiveStreamsInfo].  A handler is a function from the state of the
    service to the new state and the list of emissions it performs, in the
    order of the source. *)

From Stdlib Require Import List String Bool Arith Lia.
Import ListNotations.
Local Open Scope string_scope.
Local Open Scope list_scope.

Set Implicit Arguments.

(** ** JavaScript helpers *)

Module Js.

(** Truthiness of an optional string: [undefined] and the empty string are
    falsy, every other string is truthy. *)
Definition truthy (x : option string) : bool :=
  match x with
  | Some EmptyString => false
  | Some _ => true
  | None => false
  end.

(** [x || d] on an optional string. *)
Definition or (x : option string) (d : string) : string :=
  if truthy x then match x with Some s => s | None => d end else d.

(** [Array.prototype.findIndex]; [None] stands for the result [-1]. *)
Fixpoint findIndex {A} (p : A -> bool) (l : list A) : option nat :=
  match l with
  | [] => None
  | x :: l' =>
      if p x then Some 0
      else match findIndex p l' with
           | Some i => Some (S i)
           | None => None
           end
  end.

(** [l.splice(start, deleteCount)], as far as the array is concerned. *)
Definition splice {A} (start deleteCount : nat) (l : list A) : list A :=
  firstn start l ++ skipn (start + deleteCount) l.

(** [l.push(x)]. *)
Definition push {A} (l : list A) (x : A) : list A := l ++ [x].

End Js.

(** ** [Map<string, V>]: entries in insertion order, keys unique *)

Module JsMap.
Section WithValue.
Variable V : Type.

Definition t := list (string * V).

Definition empty : t := [].

Fixpoint get (m : t) (k : string) : option V :=
  match m with
  | [] => None
  | (k', v) :: m' => if String.eqb k' k then Some v else get m' k
  end.

(** [set] on a key already present replaces the value where it stands; a
    new key goes to the end. *)
Fixpoint set (m : t) (k : string) (v : V) : t :=
  match m with
  | [] => [(k, v)]
  | (k', v') :: m' =>
      if String.eqb k' k then (k', v) :: m' else (k', v') :: set m' k v
  end.

Fixpoint delete (m : t) (k : string) : t :=
  match m with
  | [] => []
  | (k', v') :: m' =>
      if String.eqb k' k then m' else (k', v') :: delete m' k
  end.

Definition keys (m : t) : list string := map fst m.

(** The representation invariant of a [Map]: no key twice. *)
Definition wf (m : t) : Prop := NoDup (keys m).

End WithValue.
End JsMap.

(** ** Data model *)

Module Room.

(** [interface StreamRoom]. *)
Record t := mk
  { broadcaster : string;
    viewers : list string;
    streamId : string;
    title : option string;
    category : option string }.

(** The room after its [viewers] array has been changed in place. *)
Definition with_viewers (r : t) (vs : list string) : t :=
  mk (broadcaster r) vs (streamId r) (title r) (category r).

End Room.

Module Info.

(** One element of the array [getActiveStreamsInfo] returns. *)
Record t := mk
  { id : string;
    title : string;
    viewers : nat;
    category : string;
    streamer : string;
    isLive : bool }.

End Info.

(** Offers, answers and candidates are relayed without being looked at. *)
Definition Blob := string.

(** The events the server emits; [event_name] is the name on the wire,
    [Callback] the acknowledgement of [get-active-streams]. *)
Inductive ServerEvent :=
| StreamCreated (streamId : string)
| StreamCreationFailed (error : string)
| ViewerJoined (userId streamId : string)
| StreamStarted (streamId userId : string)
| Error (message : string)
| Offer (offer : Blob) (userId : string)
| Answer (answer : Blob) (userId : string)
| IceCandidate (candidate : Blob) (userId : string)
| StreamUpdate (streams : list Info.t)
| StreamEnded (streamId : string)
| Callback (activeStreams : list Info.t).

Definition event_name (e : ServerEvent) : string :=
  match e with
  | StreamCreated _ => "stream-created"
  | StreamCreationFailed _ => "stream-creation-failed"
  | ViewerJoined _ _ => "viewer-joined"
  | StreamStarted _ _ => "stream-started"
  | Error _ => "error"
  | Offer _ _ => "offer"
  | Answer _ _ => "answer"
  | IceCandidate _ _ => "ice-candidate"
  | StreamUpdate _ => "stream-update"
  | StreamEnded _ => "stream-ended"
  | Callback _ => "callback"
  end.

(** An emission: the socket it goes to and the event. *)
Definition Emission := (string * ServerEvent)%type.

(** ** The transport (socket.io)

    The adapter's table: the connected sockets, in connection order, each
    with the groups it is in.  A socket is in the group named by its own
    id from the moment it connects, and has left every group when its
    [disconnect] handler runs.  Nothing is ever delivered to a socket that
    is not connected, so the table has no entry for one and joining it to
    a group changes nothing. *)

Module Io.

Definition t := list (string * list string).

Definition connected (io : t) : list string := map fst io.

Definition in_group (room : string) (entry : string * list string) : bool :=
  existsb (String.eqb room) (snd entry).

(** The sockets of a group. *)
Definition members (io : t) (room : string) : list string :=
  map fst (filter (in_group room) io).

Definition connect (io : t) (socket : string) : t :=
  if existsb (String.eqb socket) (connected io) then io
  else io ++ [(socket, [socket])].

Definition leave_all (io : t) (socket : string) : t :=
  filter (fun entry => negb (String.eqb (fst entry) socket)) io.

(** [socket.join(room)]. *)
Fixpoint join (io : t) (socket room : string) : t :=
  match io with
  | [] => []
  | (s, rooms) :: io' =>
      if String.eqb s socket
      then (s, if existsb (String.eqb room) rooms then rooms
               else rooms ++ [room]) :: io'
      else (s, rooms) :: join io' socket room
  end.

(** [socket.emit(e)]. *)
Definition socket_emit (socket : string) (e : ServerEvent) : list Emission :=
  [(socket, e)].

(** [io.emit(e)]: every connected socket. *)
Definition emit (io : t) (e : ServerEvent) : list Emission :=
  map (fun s => (s, e)) (connected io).

(** [io.to(room).emit(e)]: every socket of the group. *)
Definition to_emit (io : t) (room : string) (e : ServerEvent)
  : list Emission :=
  map (fun s => (s, e)) (members io room).

(** [socket.to(room).emit(e)]: every socket of the group but the sender. *)
Definition socket_to_emit (io : t) (socket room : string) (e : ServerEvent)
  : list Emission :=
  map (fun s => (s, e))
      (filter (fun s => negb (String.eqb s socket)) (members io room)).

(** No socket id twice among the connected sockets. *)
Definition wf (io : t) : Prop := NoDup (connected io).

End Io.

(** ** The service *)

Record Server := mkServer
  { rooms : JsMap.t Room.t;
    io : Io.t }.

(** [new WebRTCService(httpServer)]. *)
Definition init : Server := mkServer (JsMap.empty Room.t) [].

Definition with_rooms (s : Server) (m : JsMap.t Room.t) : Server :=
  mkServer m (io s).

Definition with_io (s : Server) (i : Io.t) : Server :=
  mkServer (rooms s) i.

(** What [prisma.user.findUnique] did: it threw, or it resolved to [null]
    or to the selected column of the user. *)
Record User := mkUser { isCreator : bool }.

Inductive Lookup :=
| Throws
| Resolves (user : option User).

(** [!user || !user.isCreator]. *)
Definition not_creator (user : option User) : bool :=
  match user with
  | None => true
  | Some u => negb (isCreator u)
  end.

(** The creator check lets the request through. *)
Definition is_creator (l : Lookup) : bool :=
  match l with
  | Throws => false
  | Resolves user => negb (not_creator user)
  end.

Module CreateStream.
Record t := mk
  { streamId : string;
    userId : string;
    title : option string;
    category : option string }.
End CreateStream.

Module JoinStream.
Record t := mk { streamId : string; userId : string }.
End JoinStream.

Module Signal.
(** The payload of [offer], [answer] and [ice-candidate]; [body] is the
    field named offer, answer or candidate, [userId] is [None] when the
    client left the field out. *)
Record t := mk
  { streamId : string;
    body : Blob;
    userId : option string }.
End Signal.

Definition summary (entry : string * Room.t) : Info.t :=
  let '(streamId, room) := entry in
  Info.mk streamId
          (Js.or (Room.title room) "Untitled Stream")
          (List.length (Room.viewers room))
          (Js.or (Room.category room) "Uncategorized")
          (Room.broadcaster room)
          true.

Definition getActiveStreamsInfo (s : Server) : list Info.t :=
  map summary (rooms s).

(** The handler of [create-stream], from the point where the lookup of the
    creator check has come back with [lookup]. *)
Definition on_create_stream (socket : string) (data : CreateStream.t)
    (lookup : Lookup) (s : Server) : Server * list Emission :=
  let streamId := CreateStream.streamId data in
  let userId := CreateStream.userId data in
  match lookup with
  | Throws =>
      (s, Io.socket_emit socket
            (StreamCreationFailed "Failed to verify creator status."))
  | Resolves user =>
      if not_creator user then
        (s, Io.socket_emit socket
              (StreamCreationFailed
                 "Only approved creators can start a stream."))
      else
        let s1 := with_rooms s
                    (JsMap.set (rooms s) streamId
                       (Room.mk userId [] streamId
                                (CreateStream.title data)
                                (CreateStream.category data))) in
        let s2 := with_io s1 (Io.join (io s1) socket streamId) in
        (s2, Io.socket_emit socket (StreamCreated streamId)
             ++ Io.emit (io s2) (StreamUpdate (getActiveStreamsInfo s2)))
  end.

Definition on_join_stream (socket : string) (data : JoinStream.t)
    (s : Server) : Server * list Emission :=
  let streamId := JoinStream.streamId data in
  let userId := JoinStream.userId data in
  match JsMap.get (rooms s) streamId with
  | Some room =>
      let s1 := with_rooms s
                  (JsMap.set (rooms s) streamId
                     (Room.with_viewers room
                        (Js.push (Room.viewers room) userId))) in
      let s2 := with_io s1 (Io.join (io s1) socket streamId) in
      (s2, Io.socket_to_emit (io s2) socket streamId
             (ViewerJoined userId streamId)
           ++ Io.socket_to_emit (io s2) socket streamId
                (StreamStarted streamId userId)
           ++ Io.emit (io s2) (StreamUpdate (getActiveStreamsInfo s2)))
  | None =>
      (s, Io.socket_emit socket (Error "Stream not found"))
  end.

(** The handlers of [offer], [answer] and [ice-candidate] differ in the
    event they emit only. *)
Definition relay (event : Blob -> string -> ServerEvent) (socket : string)
    (data : Signal.t) (s : Server) : Server * list Emission :=
  (s, Io.socket_to_emit (io s) socket (Signal.streamId data)
        (event (Signal.body data) (Js.or (Signal.userId data) socket))).

Definition on_offer := relay Offer.
Definition on_answer := relay Answer.
Definition on_ice_candidate := relay IceCandidate.

Definition on_get_active_streams (socket : string) (s : Server)
    : Server * list Emission :=
  let activeStreams := getActiveStreamsInfo s in
  (s, Io.socket_emit socket (Callback activeStreams)).

(** The callback of the [forEach] in [handleDisconnect], at one entry. *)
Definition disconnect_visit (socketId : string)
    (acc : Server * list Emission) (entry : string * Room.t)
    : Server * list Emission :=
  let '(s, out) := acc in
  let '(streamId, room) := entry in
  if String.eqb (Room.broadcaster room) socketId then
    let ended := Io.to_emit (io s) streamId (StreamEnded streamId) in
    let s' := with_rooms s (JsMap.delete (rooms s) streamId) in
    (s', out ++ ended
             ++ Io.emit (io s') (StreamUpdate (getActiveStreamsInfo s')))
  else
    match Js.findIndex (fun id => String.eqb id socketId)
                       (Room.viewers room) with
    | Some viewerIndex =>
        let s' := with_rooms s
                    (JsMap.set (rooms s) streamId
                       (Room.with_viewers room
                          (Js.splice viewerIndex 1 (Room.viewers room)))) in
        (s', out ++ Io.emit (io s') (StreamUpdate (getActiveStreamsInfo s')))
    | None => (s, out)
    end.

(** [this.rooms.forEach] visits the entries in insertion order; the
    callback touches the entry it is at only. *)
Definition handleDisconnect (socketId : string) (s : Server)
    : Server * list Emission :=
  fold_left (disconnect_visit socketId) (rooms s) (s, []).

(** What a client sends over its socket.  A [create-stream] comes with what
    the lookup of the creator check does for it. *)
Inductive ClientEvent :=
| CreateStreamEv (data : CreateStream.t) (lookup : Lookup)
| JoinStreamEv (data : JoinStream.t)
| OfferEv (data : Signal.t)
| AnswerEv (data : Signal.t)
| IceCandidateEv (data : Signal.t)
| GetActiveStreams.

(** What the transport hands to the service. *)
Inductive Input :=
| Connection (socket : string)
| Message (socket : string) (e : ClientEvent)
| Disconnect (socket : string).

Definition step (s : Server) (i : Input) : Server * list Emission :=
  match i with
  | Connection socket => (with_io s (Io.connect (io s) socket), [])
  | Message socket (CreateStreamEv data lookup) =>
      on_create_stream socket data lookup s
  | Message socket (JoinStreamEv data) => on_join_stream socket data s
  | Message socket (OfferEv data) => on_offer socket data s
  | Message socket (AnswerEv data) => on_answer socket data s
  | Message socket (IceCandidateEv data) => on_ice_candidate socket data s
  | Message socket GetActiveStreams => on_get_active_streams socket s
  | Disconnect socket =>
      handleDisconnect socket (with_io s (Io.leave_all (io s) socket))
  end.

(** Inputs are handled one after the other, each to completion. *)
Fixpoint run (s : Server) (inputs : list Input) : Server * list Emission :=
  match inputs with
  | [] => (s, [])
  | i :: rest =>
      let '(s1, out1) := step s i in
      let '(s2, out2) := run s1 rest in
      (s2, out1 ++ out2)
  end.

Definition state_after (s : Server) (inputs : list Input) : Server :=
  fst (run s inputs).

(** The ids a [get-active-streams] reply lists. *)
Definition live_ids (s : Server) : list string :=
  map Info.id (getActiveStreamsInfo s).

(** [getActiveStreams()]: the rooms themselves, in the order of the map. *)
Definition getActiveStreams (s : Server) : list Room.t :=
  map snd (rooms s).

(** [getStream(streamId)]. *)
Definition getStream (s : Server) (streamId : string) : option Room.t :=
  JsMap.get (rooms s) streamId.

(** ** Definitions the statements use *)

(** What [handleDisconnect] does to one room: the room is dropped when the
    socket id is its broadcaster, loses the first occurrence of the socket
    id among its viewers otherwise, and stays as it is when the id occurs
    in neither place. *)
Definition disconnect_room (socketId : string) (room : Room.t)
    : option Room.t :=
  if String.eqb (Room.broadcaster room) socketId then None
  else
    match Js.findIndex (fun id => String.eqb id socketId)
                       (Room.viewers room) with
    | Some viewerIndex =>
        Some (Room.with_viewers room
                (Js.splice viewerIndex 1 (Room.viewers room)))
    | None => Some room
    end.

(** What is left of an entry. *)
Definition kept (socketId : string) (entry : string * Room.t)
    : JsMap.t Room.t :=
  match disconnect_room socketId (snd entry) with
  | Some room' => [(fst entry, room')]
  | None => []
  end.

Definition rooms_after_disconnect (socketId : string) (m : JsMap.t Room.t)
    : JsMap.t Room.t :=
  flat_map (kept socketId) m.

(** What the visit of an entry emits, [now] being the registry once the
    entry has been dealt with. *)
Definition visit_emissions (socketId : string) (i : Io.t)
    (now : JsMap.t Room.t) (entry : string * Room.t) : list Emission :=
  if String.eqb (Room.broadcaster (snd entry)) socketId then
    Io.to_emit i (fst entry) (StreamEnded (fst entry))
    ++ Io.emit i (StreamUpdate (map summary now))
  else
    match Js.findIndex (fun id => String.eqb id socketId)
                       (Room.viewers (snd entry)) with
    | Some _ => Io.emit i (StreamUpdate (map summary now))
    | None => []
    end.

(** The emissions of the whole loop, [done] being the visited part of the
    registry and [todo] the part still to visit. *)
Fixpoint disconnect_trace (socketId : string) (i : Io.t)
    (done todo : JsMap.t Room.t) : list Emission :=
  match todo with
  | [] => []
  | entry :: todo' =>
      let done' := done ++ kept socketId entry in
      visit_emissions socketId i (done' ++ todo') entry
      ++ disconnect_trace socketId i done' todo'
  end.

(** The emission is a [stream-ended] for [sid]. *)
Definition ended (sid : string) (em : Emission) : bool :=
  match snd em with
  | StreamEnded k => String.eqb k sid
  | _ => false
  end.

(** A boolean check that no string occurs twice, to decide [JsMap.wf] and
    [Io.wf] on concrete states. *)
Fixpoint distinct (l : list string) : bool :=
  match l with
  | [] => true
  | x :: l' => negb (existsb (String.eqb x) l') && distinct l'
  end.

(** The input is a [create-stream] for [sid] that passes the creator
    check. *)
Definition creates (sid : string) (i : Input) : bool :=
  match i with
  | Message _ (CreateStreamEv data lookup) =>
      is_creator lookup && String.eqb (CreateStream.streamId data) sid
  | _ => false
  end.




(** The three signaling events. *)
Inductive SignalKind := OfferK | AnswerK | IceCandidateK.

Definition signal_input (k : SignalKind) (data : Signal.t) : ClientEvent :=
  match k with
  | OfferK => OfferEv data
  | AnswerK => AnswerEv data
  | IceCandidateK => IceCandidateEv data
  end.

Definition signal_output (k : SignalKind) : Blob -> string -> ServerEvent :=
  match k with
  | OfferK => Offer
  | AnswerK => Answer
  | IceCandidateK => IceCandidate
  end.

(** The socket an input comes from. *)
Definition input_socket (i : Input) : string :=
  match i with
  | Connection socket => socket
  | Message socket _ => socket
  | Disconnect socket => socket
  end.

(** The group the handler of a client event calls [socket.join] for: the
    stream id of a [create-stream] that passes the creator check or of a
    [join-stream] that finds its room. *)
Definition joins_group (s : Server) (e : ClientEvent) : option string :=
  match e with
  | CreateStreamEv data lookup =>
      if is_creator lookup then Some (CreateStream.streamId data) else None
  | JoinStreamEv data =>
      match JsMap.get (rooms s) (JoinStream.streamId data) with
      | Some _ => Some (JoinStream.streamId data)
      | None => None
      end
  | _ => None
  end.

(** Every room is stored under its own [streamId]. *)
Definition keyed (m : JsMap.t Room.t) : Prop :=
  forall k room, In (k, room) m -> Room.streamId room = k.

(** The room is not deleted by the disconnect of [socketId]. *)
Definition survives (socketId : string) (entry : string * Room.t) : bool :=
  negb (String.eqb (Room.broadcaster (snd entry)) socketId).

(** *** Concrete runs *)

Definition approved : Lookup := Resolves (Some (mkUser true)).

(** A creator [userA] on socket [sockA] starts [s1], a viewer on socket
    [sockB] joins it. *)
Definition broadcast_setup : list Input :=
  [ Connection "sockA";
    Message "sockA"
      (CreateStreamEv (CreateStream.mk "s1" "userA" None None) approved);
    Connection "sockB";
    Message "sockB" (JoinStreamEv (JoinStream.mk "s1" "userB")) ].

(** The run of section 8 of the specification, where the ids in the
    payloads are the ids of the sockets. *)
Definition scenario_setup : list Input :=
  [ Connection "A";
    Message "A"
      (CreateStreamEv (CreateStream.mk "s1" "A" None None) approved);
    Connection "B";
    Message "B" (JoinStreamEv (JoinStream.mk "s1" "B")) ].

(** One connection joins two streams under its socket id. *)
Definition two_rooms_setup : list Input :=
  [ Connection "A";
    Message "A"
      (CreateStreamEv (CreateStream.mk "s1" "A" None None) approved);
    Connection "C";
    Message "C"
      (CreateStreamEv (CreateStream.mk "s2" "C" (Some "chess") None)
                      approved);
    Connection "B";
    Message "B" (JoinStreamEv (JoinStream.mk "s1" "B"));
    Message "B" (JoinStreamEv (JoinStream.mk "s2" "B")) ].

Unset Implicit Arguments.

(** ** The room registry *)

Section MapFacts.
Variable V : Type.
Implicit Types (m : JsMap.t V) (k : string) (v : V).

Lemma get_set_eq m k v : JsMap.get (JsMap.set m k v) k = Some v.
Proof.
  induction m as [|[k' v'] m IH]; simpl.
  - now rewrite String.eqb_refl.
  - destruct (String.eqb k' k) eqn:E; simpl; now rewrite E.
Qed.

Lemma get_set_neq m k k' v :
  k' <> k -> JsMap.get (JsMap.set m k v) k' = JsMap.get m k'.
Proof.
  intros Hne. induction m as [|[a v'] m IH]; simpl.
  - apply String.eqb_neq in Hne. rewrite String.eqb_sym. now rewrite Hne.
  - destruct (String.eqb_spec a k) as [->|Hak]; simpl.
    + apply not_eq_sym, String.eqb_neq in Hne. now rewrite Hne.
    + now rewrite IH.
Qed.

Lemma get_none_keys m k :
  JsMap.get m k = None <-> ~ In k (JsMap.keys m).
Proof.
  induction m as [|[a v'] m IH]; simpl.
  - tauto.
  - destruct (String.eqb_spec a k) as [->|Hne].
    + split; [discriminate | intros H; exfalso; apply H; now left].
    + rewrite IH. split; [intros H [H1|H1]; auto | tauto].
Qed.

Lemma get_some_keys m k v :
  JsMap.get m k = Some v -> In k (JsMap.keys m).
Proof.
  intros H. destruct (in_dec string_dec k (JsMap.keys m)) as [|Hn]; trivial.
  apply get_none_keys in Hn. congruence.
Qed.

Lemma get_some_in m k v : JsMap.get m k = Some v -> In (k, v) m.
Proof.
  induction m as [|[a v'] m IH]; simpl; [discriminate|].
  destruct (String.eqb_spec a k) as [->|Hne].
  - intros [= ->]. now left.
  - intros H. right. auto.
Qed.

Lemma in_get_some m k v :
  JsMap.wf m -> In (k, v) m -> JsMap.get m k = Some v.
Proof.
  unfold JsMap.wf. induction m as [|[a v'] m IH]; simpl; [tauto|].
  intros Hnd [H|H].
  - injection H as -> ->. now rewrite String.eqb_refl.
  - inversion Hnd as [|? ? Hnotin Hnd']; subst.
    destruct (String.eqb_spec a k) as [->|Hne].
    + exfalso. apply Hnotin. change k with (fst (k, v)). now apply in_map.
    + auto.
Qed.

Lemma keys_set_present m k v :
  In k (JsMap.keys m) -> JsMap.keys (JsMap.set m k v) = JsMap.keys m.
Proof.
  induction m as [|[a v'] m IH]; simpl; [tauto|].
  destruct (String.eqb_spec a k) as [->|Hne]; simpl.
  - reflexivity.
  - intros [H|H]; [contradiction|]. f_equal. auto.
Qed.

Lemma keys_set_absent m k v :
  ~ In k (JsMap.keys m) -> JsMap.keys (JsMap.set m k v) = JsMap.keys m ++ [k].
Proof.
  induction m as [|[a v'] m IH]; simpl; [reflexivity|].
  intros Hn. destruct (String.eqb_spec a k) as [->|Hne]; simpl.
  - exfalso. apply Hn. now left.
  - f_equal. apply IH. tauto.
Qed.

Lemma keys_set_incl m k v k' :
  In k' (JsMap.keys (JsMap.set m k v)) -> k' = k \/ In k' (JsMap.keys m).
Proof.
  destruct (in_dec string_dec k (JsMap.keys m)) as [Hin|Hn].
  - rewrite keys_set_present by trivial. tauto.
  - rewrite keys_set_absent by trivial. rewrite in_app_iff. simpl.
    intuition auto.
Qed.

Lemma keys_delete_incl m k k' :
  In k' (JsMap.keys (JsMap.delete m k)) -> In k' (JsMap.keys m).
Proof.
  induction m as [|[a v'] m IH]; simpl; [tauto|].
  destruct (String.eqb a k); simpl; tauto.
Qed.

Lemma set_wf m k v : JsMap.wf m -> JsMap.wf (JsMap.set m k v).
Proof.
  unfold JsMap.wf. intros Hnd.
  destruct (in_dec string_dec k (JsMap.keys m)) as [Hin|Hn].
  - now rewrite keys_set_present.
  - rewrite keys_set_absent by trivial.
    apply NoDup_app; trivial.
    + constructor; [simpl; tauto | constructor].
    + intros a Ha [<-|[]]. contradiction.
Qed.

Lemma delete_wf m k : JsMap.wf m -> JsMap.wf (JsMap.delete m k).
Proof.
  unfold JsMap.wf. induction m as [|[a v'] m IH]; simpl; trivial.
  intros Hnd. inversion Hnd as [|? ? Hnotin Hnd']; subst.
  destruct (String.eqb a k); simpl; trivial.
  constructor; auto.
  intros H. apply Hnotin. eapply keys_delete_incl, H.
Qed.

(** With unique keys, [delete] and [set] at the key of an entry act on that
    entry, wherever it stands. *)
Lemma delete_middle (done rest : JsMap.t V) k v :
  ~ In k (JsMap.keys done) ->
  JsMap.delete (done ++ (k, v) :: rest) k = done ++ rest.
Proof.
  induction done as [|[a v'] done IH]; simpl.
  - now rewrite String.eqb_refl.
  - intros Hn. destruct (String.eqb_spec a k) as [->|Hne].
    + exfalso. apply Hn. now left.
    + f_equal. apply IH. tauto.
Qed.

Lemma set_middle (done rest : JsMap.t V) k v v' :
  ~ In k (JsMap.keys done) ->
  JsMap.set (done ++ (k, v) :: rest) k v' = done ++ (k, v') :: rest.
Proof.
  induction done as [|[a w] done IH]; simpl.
  - now rewrite String.eqb_refl.
  - intros Hn. destruct (String.eqb_spec a k) as [->|Hne].
    + exfalso. apply Hn. now left.
    + f_equal. apply IH. tauto.
Qed.

Lemma wf_middle (done rest : JsMap.t V) k v :
  JsMap.wf (done ++ (k, v) :: rest) ->
  ~ In k (JsMap.keys done) /\ ~ In k (JsMap.keys rest)
  /\ JsMap.wf (done ++ rest).
Proof.
  unfold JsMap.wf, JsMap.keys. rewrite !map_app. simpl. intros H.
  apply NoDup_remove in H as [H1 H2]. rewrite in_app_iff in H2. tauto.
Qed.

End MapFacts.

Lemma distinct_NoDup l : distinct l = true -> NoDup l.
Proof.
  induction l as [|x l IH]; simpl; [constructor|].
  intros H. apply andb_true_iff in H as [Hx Hl].
  constructor; auto.
  intros Hin. apply negb_true_iff in Hx.
  assert (existsb (String.eqb x) l = true) as E
      by (apply existsb_exists; exists x; split; trivial;
          apply String.eqb_refl).
  congruence.
Qed.

(** ** Snapshots *)

Lemma live_ids_keys s : live_ids s = JsMap.keys (rooms s).
Proof.
  unfold live_ids, getActiveStreamsInfo, JsMap.keys.
  rewrite map_map. apply map_ext. now intros [k r].
Qed.

(** The entries of a snapshot under one id, when keys are unique. *)
Lemma snapshot_entries_of (m : JsMap.t Room.t) sid room :
  JsMap.wf m ->
  JsMap.get m sid = Some room ->
  filter (fun i => String.eqb (Info.id i) sid) (map summary m)
  = [summary (sid, room)].
Proof.
  unfold JsMap.wf. induction m as [|[k r] m IH]; simpl; [discriminate|].
  intros Hnd Hget. inversion Hnd as [|? ? Hnotin Hnd']; subst.
  destruct (String.eqb_spec k sid) as [->|Hne].
  - injection Hget as ->. f_equal.
    apply get_none_keys in Hnotin.
    clear -Hnotin. induction m as [|[k r] m IH]; simpl in *; trivial.
    destruct (String.eqb_spec k sid) as [->|Hne]; [discriminate|auto].
  - auto.
Qed.


(** ** The transport *)

(** Dropping sockets from the table keeps the socket ids unique. *)
Lemma filter_wf (keep : string * list string -> bool) (i : Io.t) :
  Io.wf i -> Io.wf (filter keep i).
Proof.
  unfold Io.wf, Io.connected.
  induction i as [|entry i IH]; simpl; trivial.
  intros Hwf. inversion Hwf as [|? ? Hfresh Hrest]; subst.
  destruct (keep entry); simpl; auto.
  constructor; auto.
  intros Hin. apply Hfresh.
  apply in_map_iff in Hin as [other [Hsame Hin]].
  apply filter_In in Hin as [Hin _].
  rewrite <- Hsame. now apply in_map.
Qed.

Lemma members_NoDup i room : Io.wf i -> NoDup (Io.members i room).
Proof. apply filter_wf. Qed.

Lemma members_connected i room c :
  In c (Io.members i room) -> In c (Io.connected i).
Proof.
  unfold Io.members, Io.connected. rewrite !in_map_iff.
  intros [e [He Hin]]. apply filter_In in Hin as [Hin _]. eauto.
Qed.

Lemma leave_all_wf i socket : Io.wf i -> Io.wf (Io.leave_all i socket).
Proof. apply filter_wf. Qed.

Lemma leave_all_gone i socket :
  ~ In socket (Io.connected (Io.leave_all i socket)).
Proof.
  unfold Io.connected, Io.leave_all. rewrite in_map_iff.
  intros [e [He Hin]]. apply filter_In in Hin as [_ Hne].
  apply negb_true_iff, String.eqb_neq in Hne. contradiction.
Qed.

Lemma join_connected i socket room :
  Io.connected (Io.join i socket room) = Io.connected i.
Proof.
  induction i as [|[s g] i IH]; simpl; trivial.
  destruct (String.eqb s socket); simpl; congruence.
Qed.

Lemma connect_wf i socket : Io.wf i -> Io.wf (Io.connect i socket).
Proof.
  unfold Io.wf, Io.connect. intros H.
  destruct (existsb (String.eqb socket) (Io.connected i)) eqn:E; trivial.
  unfold Io.connected in *. rewrite map_app. simpl.
  apply NoDup_app; trivial.
  - constructor; [simpl; tauto | constructor].
  - intros a Ha [Hs|[]]. subst a.
    assert (existsb (String.eqb socket) (map fst i) = true) as E'
        by (apply existsb_exists; exists socket; split; trivial;
            apply String.eqb_refl).
    congruence.
Qed.

Lemma socket_to_emit_in i socket room e c e' :
  In (c, e') (Io.socket_to_emit i socket room e)
  <-> c <> socket /\ In c (Io.members i room) /\ e' = e.
Proof.
  unfold Io.socket_to_emit. rewrite in_map_iff. split.
  - intros [x [[= -> <-] Hin]]. apply filter_In in Hin as [Hin Hne].
    apply negb_true_iff, String.eqb_neq in Hne. auto.
  - intros (Hne & Hin & ->). exists c. split; trivial.
    apply filter_In. split; trivial.
    now apply negb_true_iff, String.eqb_neq.
Qed.

(** ** The disconnect loop *)

Lemma wf_kept socketId (done todo : JsMap.t Room.t) k r :
  JsMap.wf (done ++ (k, r) :: todo) ->
  JsMap.wf ((done ++ kept socketId (k, r)) ++ todo).
Proof.
  intros Hwf. unfold kept. cbn [fst snd].
  destruct (disconnect_room socketId r) as [r'|].
  - rewrite <- app_assoc.
    unfold JsMap.wf, JsMap.keys in *. rewrite map_app in *. exact Hwf.
  - rewrite app_nil_r. now apply wf_middle in Hwf.
Qed.

(** One visit: with unique keys, the callback acts on the entry the loop
    is at. *)
Lemma disconnect_visit_at socketId (done todo : JsMap.t Room.t) i out k r :
  ~ In k (JsMap.keys done) ->
  disconnect_visit socketId (mkServer (done ++ (k, r) :: todo) i, out) (k, r)
  = (mkServer ((done ++ kept socketId (k, r)) ++ todo) i,
     out ++ visit_emissions socketId i
              ((done ++ kept socketId (k, r)) ++ todo) (k, r)).
Proof.
  intros Hk.
  unfold disconnect_visit, visit_emissions, kept, disconnect_room,
    getActiveStreamsInfo, with_rooms.
  cbn [fst snd rooms io].
  destruct (String.eqb (Room.broadcaster r) socketId).
  - now rewrite delete_middle, app_nil_r.
  - destruct (Js.findIndex _ _) as [viewerIndex|].
    + rewrite set_middle by trivial. now rewrite <- app_assoc.
    + now rewrite <- app_assoc, app_nil_r.
Qed.

(** The loop: what it has visited is final, what it has not is as it
    was. *)
Lemma disconnect_fold socketId i : forall (todo done : JsMap.t Room.t) out,
  JsMap.wf (done ++ todo) ->
  fold_left (disconnect_visit socketId) todo (mkServer (done ++ todo) i, out)
  = (mkServer (done ++ rooms_after_disconnect socketId todo) i,
     out ++ disconnect_trace socketId i done todo).
Proof.
  induction todo as [|[k r] todo IH]; intros done out Hwf.
  - simpl. now rewrite !app_nil_r.
  - cbn [fold_left].
    rewrite disconnect_visit_at by (now apply wf_middle in Hwf).
    rewrite IH by (now apply wf_kept).
    cbn [rooms_after_disconnect flat_map disconnect_trace].
    now rewrite <- !app_assoc.
Qed.

Lemma handleDisconnect_eq socketId s :
  JsMap.wf (rooms s) ->
  handleDisconnect socketId s
  = (mkServer (rooms_after_disconnect socketId (rooms s)) (io s),
     disconnect_trace socketId (io s) [] (rooms s)).
Proof.
  intros Hwf. destruct s as [m i]. unfold handleDisconnect. cbn [rooms io].
  apply (disconnect_fold socketId i m [] [] Hwf).
Qed.

Lemma rooms_after_disconnect_keys socketId (m : JsMap.t Room.t) k :
  In k (JsMap.keys (rooms_after_disconnect socketId m)) ->
  In k (JsMap.keys m).
Proof.
  induction m as [|[a r] m IH]; simpl; trivial.
  unfold kept. simpl. destruct (disconnect_room socketId r); simpl; tauto.
Qed.

Lemma get_rooms_after_disconnect socketId (m : JsMap.t Room.t) k :
  JsMap.wf m ->
  JsMap.get (rooms_after_disconnect socketId m) k
  = match JsMap.get m k with
    | Some room => disconnect_room socketId room
    | None => None
    end.
Proof.
  unfold JsMap.wf. induction m as [|[a r] m IH]; simpl; trivial.
  intros Hnd. inversion Hnd as [|? ? Hnotin Hnd']; subst.
  unfold kept. cbn [fst snd].
  destruct (String.eqb_spec a k) as [->|Hne].
  - destruct (disconnect_room socketId r) as [r'|]; simpl.
    + now rewrite String.eqb_refl.
    + apply get_none_keys. intros H. apply Hnotin.
      eapply rooms_after_disconnect_keys, H.
  - destruct (disconnect_room socketId r) as [r'|]; simpl.
    + apply String.eqb_neq in Hne. rewrite Hne. auto.
    + auto.
Qed.

Lemma rooms_after_disconnect_wf socketId (m : JsMap.t Room.t) :
  JsMap.wf m -> JsMap.wf (rooms_after_disconnect socketId m).
Proof.
  unfold JsMap.wf. induction m as [|[a r] m IH]; simpl; trivial.
  intros Hnd. inversion Hnd as [|? ? Hnotin Hnd']; subst.
  unfold kept. cbn [fst snd].
  destruct (disconnect_room socketId r); simpl; auto.
  constructor; auto.
  intros H. apply Hnotin. eapply rooms_after_disconnect_keys, H.
Qed.

(** Whatever the registry looks like, the loop does not touch the
    transport and adds no key. *)
Lemma disconnect_visit_io socketId acc entry :
  io (fst (disconnect_visit socketId acc entry)) = io (fst acc).
Proof.
  destruct acc as [s out], entry as [k r]. simpl.
  destruct (String.eqb (Room.broadcaster r) socketId); trivial.
  now destruct (Js.findIndex _ _).
Qed.

Lemma handleDisconnect_io socketId s :
  io (fst (handleDisconnect socketId s)) = io s.
Proof.
  unfold handleDisconnect.
  assert (forall todo acc,
             io (fst (fold_left (disconnect_visit socketId) todo acc))
             = io (fst acc)) as Hloop.
  { induction todo as [|e todo IH]; intros acc; simpl; trivial.
    rewrite IH. apply disconnect_visit_io. }
  apply Hloop.
Qed.

Lemma disconnect_visit_keys socketId acc entry k :
  In k (JsMap.keys (rooms (fst (disconnect_visit socketId acc entry)))) ->
  k = fst entry \/ In k (JsMap.keys (rooms (fst acc))).
Proof.
  destruct acc as [s out], entry as [a r]. simpl.
  destruct (String.eqb (Room.broadcaster r) socketId); simpl.
  - intros H. right. eapply keys_delete_incl, H.
  - destruct (Js.findIndex _ _); simpl; [apply keys_set_incl | tauto].
Qed.

Lemma handleDisconnect_keys socketId s k :
  In k (JsMap.keys (rooms (fst (handleDisconnect socketId s)))) ->
  In k (JsMap.keys (rooms s)).
Proof.
  unfold handleDisconnect.
  assert (forall todo acc,
             In k (JsMap.keys (rooms (fst
                 (fold_left (disconnect_visit socketId) todo acc)))) ->
             In k (JsMap.keys todo)
             \/ In k (JsMap.keys (rooms (fst acc)))) as Hloop.
  { induction todo as [|e todo IH]; intros acc H; simpl in *; [tauto|].
    apply IH in H as [H|H]; [tauto|].
    apply disconnect_visit_keys in H. intuition auto. }
  intros H. apply Hloop in H. simpl in H. tauto.
Qed.

(** ** The two outcomes of [create-stream] *)

Lemma on_create_stream_rejected socket data lookup s :
  is_creator lookup = false ->
  on_create_stream socket data lookup s
  = (s, [(socket,
          StreamCreationFailed
            match lookup with
            | Throws => "Failed to verify creator status."
            | Resolves _ => "Only approved creators can start a stream."
            end)]).
Proof.
  intros H. unfold on_create_stream. destruct lookup as [|user]; trivial.
  simpl in H. apply negb_false_iff in H. now rewrite H.
Qed.

Lemma on_create_stream_accepted socket data lookup s :
  is_creator lookup = true ->
  on_create_stream socket data lookup s
  = let streamId := CreateStream.streamId data in
    let s2 :=
      mkServer
        (JsMap.set (rooms s) streamId
           (Room.mk (CreateStream.userId data) [] streamId
                    (CreateStream.title data) (CreateStream.category data)))
        (Io.join (io s) socket streamId) in
    (s2, (socket, StreamCreated streamId)
         :: Io.emit (io s2) (StreamUpdate (getActiveStreamsInfo s2))).
Proof.
  intros H. unfold on_create_stream. destruct lookup as [|user].
  - discriminate.
  - simpl in H. apply negb_true_iff in H. now rewrite H.
Qed.


Lemma join_missing socket data s :
  JsMap.get (rooms s) (JoinStream.streamId data) = None ->
  on_join_stream socket data s = (s, [(socket, Error "Stream not found")]).
Proof.
  intros H. unfold on_join_stream. now rewrite H.
Qed.

(** ** Invariants of the service *)

Lemma step_wf s i : JsMap.wf (rooms s) -> JsMap.wf (rooms (fst (step s i))).
Proof.
  intros Hwf. destruct i as [socket|socket e|socket]; simpl; trivial.
  - destruct e as [data lookup|data|data|data|data|]; simpl; trivial.
    + destruct (is_creator lookup) eqn:E.
      * rewrite on_create_stream_accepted by trivial. now apply set_wf.
      * now rewrite on_create_stream_rejected.
    + unfold on_join_stream.
      destruct (JsMap.get (rooms s) (JoinStream.streamId data)); simpl;
        trivial.
      now apply set_wf.
  - rewrite handleDisconnect_eq by trivial.
    now apply rooms_after_disconnect_wf.
Qed.

Lemma step_io_wf s i : Io.wf (io s) -> Io.wf (io (fst (step s i))).
Proof.
  intros Hwf. destruct i as [socket|socket e|socket]; simpl.
  - now apply connect_wf.
  - destruct e as [data lookup|data|data|data|data|]; simpl; trivial.
    + destruct (is_creator lookup) eqn:E.
      * rewrite on_create_stream_accepted by trivial. simpl.
        unfold Io.wf. now rewrite join_connected.
      * now rewrite on_create_stream_rejected.
    + unfold on_join_stream.
      destruct (JsMap.get (rooms s) (JoinStream.streamId data)); simpl;
        trivial.
      unfold Io.wf. now rewrite join_connected.
  - rewrite handleDisconnect_io. simpl. now apply leave_all_wf.
Qed.

Lemma run_cons s i rest :
  state_after s (i :: rest) = state_after (fst (step s i)) rest.
Proof.
  unfold state_after. simpl.
  destruct (step s i) as [s1 out1]. simpl.
  now destruct (run s1 rest).
Qed.

Lemma run_wf inputs : forall s,
  JsMap.wf (rooms s) -> JsMap.wf (rooms (state_after s inputs)).
Proof.
  induction inputs as [|i rest IH]; intros s Hwf; trivial.
  rewrite run_cons. apply IH. now apply step_wf.
Qed.

(** Every state the service can be in has unique stream ids and unique
    socket ids. *)
Lemma reachable_wf inputs :
  JsMap.wf (rooms (state_after init inputs))
  /\ Io.wf (io (state_after init inputs)).
Proof.
  split; [apply run_wf; constructor|].
  assert (forall s, Io.wf (io s) -> Io.wf (io (state_after s inputs))) as H.
  { induction inputs as [|i rest IH]; intros s Hwf; trivial.
    rewrite run_cons. apply IH. now apply step_io_wf. }
  apply H. constructor.
Qed.

(** ** Where a live id comes from *)

Lemma step_live_id_origin sid s i :
  In sid (live_ids (fst (step s i))) ->
  In sid (live_ids s) \/ creates sid i = true.
Proof.
  rewrite !live_ids_keys.
  destruct i as [socket|socket e|socket]; simpl; auto.
  - destruct e as [data lookup|data|data|data|data|]; simpl; auto.
    + destruct (is_creator lookup) eqn:E.
      * rewrite on_create_stream_accepted by trivial. simpl.
        intros H. apply keys_set_incl in H as [->|H]; auto.
        right. apply String.eqb_refl.
      * rewrite on_create_stream_rejected by trivial. auto.
    + unfold on_join_stream.
      destruct (JsMap.get (rooms s) (JoinStream.streamId data)) eqn:G;
        simpl; auto.
      rewrite keys_set_present by (eapply get_some_keys, G). auto.
  - intros H. apply handleDisconnect_keys in H. auto.
Qed.

Lemma run_live_id_origin sid later : forall s,
  In sid (live_ids (state_after s later)) ->
  In sid (live_ids s) \/ existsb (creates sid) later = true.
Proof.
  induction later as [|i rest IH]; intros s H; simpl; auto.
  rewrite run_cons in H. apply IH in H as [H|H].
  - apply step_live_id_origin in H as [H|H]; auto.
    right. now rewrite H.
  - right. rewrite H. apply orb_true_r.
Qed.

(** C3: a [create-stream] that fails the creator check, because the user
    is unknown or not a creator or because the lookup throws, emits
    [stream-creation-failed] to the requesting socket and nothing else,
    leaves the service as it was, and is never the reason the stream id is
    listed: whenever the id is in a later snapshot, it was live before the
    request already or a later [create-stream] for it passed the check. *)
Theorem C3_rejected_create_changes_nothing socket data lookup s :
  is_creator lookup = false ->
  let sid := CreateStream.streamId data in
  let result := step s (Message socket (CreateStreamEv data lookup)) in
  snd result
  = [(socket,
      StreamCreationFailed
        match lookup with
        | Throws => "Failed to verify creator status."
        | Resolves _ => "Only approved creators can start a stream."
        end)]
  /\ fst result = s
  /\ forall later,
       In sid (live_ids (state_after (fst result) later)) ->
       In sid (live_ids s) \/ existsb (creates sid) later = true.
Proof.
  intros H sid result. subst result. simpl.
  rewrite on_create_stream_rejected by trivial. simpl.
  split; trivial. split; trivial.
  intros later. apply run_live_id_origin.
Qed.

Lemma C3_witness :
  let data := CreateStream.mk "s1" "mallory" None None in
  let result :=
    step init (Message "sockM" (CreateStreamEv data (Resolves None))) in
  snd result
  = [("sockM",
      StreamCreationFailed "Only approved creators can start a stream.")]
  /\ fst result = init
  /\ forall later,
       In "s1" (live_ids (state_after (fst result) later)) ->
       In "s1" (live_ids init) \/ existsb (creates "s1") later = true.
Proof.
  apply (C3_rejected_create_changes_nothing
           "sockM" (CreateStream.mk "s1" "mallory" None None)
           (Resolves None) init).
  reflexivity.
Defined.

(** C6, as the specification has it, fails: the requester is the socket
    the request comes over, and the room does not get it as broadcaster.
    Socket [sockD] sends a [create-stream] for [s2] with [userId] [D] that
    passes the creator check; the room stored under [s2] has broadcaster
    [D], the [userId] of the payload, and not [sockD]. *)
Lemma C6_broadcaster_is_not_the_requesting_socket :
  let s := state_after init [Connection "sockD"] in
  let data := CreateStream.mk "s2" "D" None (Some "music") in
  let result := step s (Message "sockD" (CreateStreamEv data approved)) in
  is_creator approved = true
  /\ In "sockD" (Io.connected (io s))
  /\ JsMap.get (rooms (fst result)) "s2"
     = Some (Room.mk "D" [] "s2" None (Some "music"))
  /\ JsMap.get (rooms (fst result)) "s2"
     <> Some (Room.mk "sockD" [] "s2" None (Some "music"))
  /\ forall room,
       JsMap.get (rooms (fst result)) "s2" = Some room ->
       Room.broadcaster room <> "sockD".
Proof.
  repeat split.
  - simpl. now left.
  - discriminate.
  - intros room [= <-]. discriminate.
Qed.

(** C6, amended: a [create-stream] that passes the creator check always
    creates the room: afterwards the registry maps the stream id to a room
    whose broadcaster is the [userId] of the request's payload, the
    identity the creator check has looked up, and not the id of the
    requesting socket, with the title and category of the request and no
    viewers, whatever was stored under that id before; the other rooms are
    untouched and the requesting socket is sent [stream-created]. *)
Theorem C6_authorized_create_overwrites socket data lookup s :
  is_creator lookup = true ->
  let sid := CreateStream.streamId data in
  let result := step s (Message socket (CreateStreamEv data lookup)) in
  JsMap.get (rooms (fst result)) sid
  = Some (Room.mk (CreateStream.userId data) [] sid
                  (CreateStream.title data) (CreateStream.category data))
  /\ (forall k, k <> sid ->
        JsMap.get (rooms (fst result)) k = JsMap.get (rooms s) k)
  /\ In (socket, StreamCreated sid) (snd result).
Proof.
  intros H sid result. subst result sid. simpl.
  rewrite on_create_stream_accepted by trivial. simpl.
  split; [apply get_set_eq|]. split; [|now left].
  intros k Hk. now apply get_set_neq.
Qed.

Lemma C6_witness :
  let s := state_after init two_rooms_setup in
  let data := CreateStream.mk "s2" "D" None (Some "music") in
  let result := step s (Message "sockD" (CreateStreamEv data approved)) in
  JsMap.get (rooms (fst result)) "s2"
  = Some (Room.mk "D" [] "s2" None (Some "music"))
  /\ (forall k, k <> "s2" ->
        JsMap.get (rooms (fst result)) k = JsMap.get (rooms s) k)
  /\ In ("sockD", StreamCreated "s2") (snd result).
Proof.
  apply (C6_authorized_create_overwrites
           "sockD" (CreateStream.mk "s2" "D" None (Some "music")) approved
           (state_after init two_rooms_setup)).
  reflexivity.
Defined.

(** C7: a [join-stream] naming a stream id the registry has no room for
    emits one [error] event, to the requesting socket, and nothing else:
    no [stream-update] goes out and the service is as it was. *)
Theorem C7_join_unknown_stream socket data s :
  JsMap.get (rooms s) (JoinStream.streamId data) = None ->
  step s (Message socket (JoinStreamEv data))
  = (s, [(socket, Error "Stream not found")]).
Proof.
  intros H. simpl. now apply join_missing.
Qed.

Lemma C7_witness :
  step (state_after init broadcast_setup)
       (Message "sockB" (JoinStreamEv (JoinStream.mk "nope" "userB")))
  = (state_after init broadcast_setup,
     [("sockB", Error "Stream not found")]).
Proof.
  apply (C7_join_unknown_stream
           "sockB" (JoinStream.mk "nope" "userB")
           (state_after init broadcast_setup)).
  reflexivity.
Defined.

(** ** Summaries *)

Lemma or_falsy x d : Js.truthy x = false -> Js.or x d = d.
Proof. intros H. unfold Js.or. now rewrite H. Qed.

Lemma or_truthy t d : t <> EmptyString -> Js.or (Some t) d = t.
Proof. intros H. destruct t; [now contradiction H | reflexivity]. Qed.

(** C8: every room of the registry has exactly one entry in the snapshot,
    under its stream id; the entry's title is [Untitled Stream] when the
    room has none, its category is [Uncategorized] when the room has none,
    its viewer count is the length of the room's viewer list, its streamer
    is the room's broadcaster and it is live.  A title or category that is
    present and not the empty string is reported as it is; the empty
    string is falsy and gives the default too.  The snapshot has as many
    entries as the registry has rooms. *)
Theorem C8_summary_of_room s sid room :
  JsMap.wf (rooms s) ->
  JsMap.get (rooms s) sid = Some room ->
  exists info,
    filter (fun i => String.eqb (Info.id i) sid) (getActiveStreamsInfo s)
    = [info]
    /\ Info.id info = sid
    /\ (Room.title room = None -> Info.title info = "Untitled Stream")
    /\ (Room.title room = Some EmptyString ->
        Info.title info = "Untitled Stream")
    /\ (forall t, Room.title room = Some t -> t <> EmptyString ->
                  Info.title info = t)
    /\ (Room.category room = None -> Info.category info = "Uncategorized")
    /\ (Room.category room = Some EmptyString ->
        Info.category info = "Uncategorized")
    /\ (forall c, Room.category room = Some c -> c <> EmptyString ->
                  Info.category info = c)
    /\ Info.viewers info = List.length (Room.viewers room)
    /\ Info.streamer info = Room.broadcaster room
    /\ Info.isLive info = true
    /\ List.length (getActiveStreamsInfo s) = List.length (rooms s).
Proof.
  intros Hwf Hget. exists (summary (sid, room)).
  split; [now apply snapshot_entries_of|]. simpl.
  split; trivial.
  split; [now intros ->|]. split; [now intros ->|].
  split; [intros t -> Ht; now apply or_truthy|].
  split; [now intros ->|]. split; [now intros ->|].
  split; [intros c -> Hc; now apply or_truthy|].
  repeat split. unfold getActiveStreamsInfo. apply length_map.
Qed.

Lemma C8_witness :
  exists info,
    filter (fun i => String.eqb (Info.id i) "s2")
           (getActiveStreamsInfo (state_after init two_rooms_setup))
    = [info]
    /\ Info.id info = "s2"
    /\ Info.title info = "chess"
    /\ Info.category info = "Uncategorized"
    /\ Info.viewers info = 1
    /\ Info.streamer info = "C"
    /\ Info.isLive info = true.
Proof.
  destruct (C8_summary_of_room
              (state_after init two_rooms_setup) "s2"
              (Room.mk "C" ["B"] "s2" (Some "chess") None))
    as [info (Hone & Hid & _ & _ & Ht & Hc & _ & _ & Hv & Hs & Hl & _)].
  - apply distinct_NoDup. reflexivity.
  - reflexivity.
  - exists info. repeat split; trivial.
    + apply (Ht "chess"); [reflexivity | discriminate].
    + apply Hc. reflexivity.
Defined.

(** ** Queries *)

(** C9: [get-active-streams] changes nothing in the service and replies to
    the requester with the snapshot of the current state; two requests
    with nothing in between that changes the state get the same
    snapshot. *)
Theorem C9_get_active_streams_idempotent s c1 c2 mid :
  state_after s mid = s ->
  let first := step s (Message c1 GetActiveStreams) in
  let second :=
    step (state_after (fst first) mid) (Message c2 GetActiveStreams) in
  fst first = s
  /\ fst second = s
  /\ exists snapshot,
       snd first = [(c1, Callback snapshot)]
       /\ snd second = [(c2, Callback snapshot)].
Proof.
  intros Hmid first second. subst first second. simpl.
  rewrite Hmid. simpl. split; trivial. split; trivial.
  now exists (getActiveStreamsInfo s).
Qed.

Lemma C9_witness :
  let s := state_after init two_rooms_setup in
  let mid := [Message "A" (OfferEv (Signal.mk "s1" "sdp" None));
              Message "C" GetActiveStreams] in
  let first := step s (Message "B" GetActiveStreams) in
  let second :=
    step (state_after (fst first) mid) (Message "A" GetActiveStreams) in
  fst first = s
  /\ fst second = s
  /\ exists snapshot,
       snd first = [("B", Callback snapshot)]
       /\ snd second = [("A", Callback snapshot)].
Proof.
  apply (C9_get_active_streams_idempotent
           (state_after init two_rooms_setup) "B" "A"
           [Message "A" (OfferEv (Signal.mk "s1" "sdp" None));
            Message "C" GetActiveStreams]).
  reflexivity.
Defined.

(** ** Relays *)

Lemma step_signal kind socket data s :
  step s (Message socket (signal_input kind data))
  = relay (signal_output kind) socket data s.
Proof. now destruct kind. Qed.

(** C5: an [offer], [answer] or [ice-candidate] a socket sends is emitted
    to exactly the sockets that are in the group of the stream id at that
    moment and are not the sender: never to the sender, and to each other
    member of the group.  The relay changes nothing in the service. *)
Theorem C5_relay_reaches_others_only kind socket data s :
  let result := step s (Message socket (signal_input kind data)) in
  let relayed :=
    signal_output kind (Signal.body data)
                  (Js.or (Signal.userId data) socket) in
  (forall e, ~ In (socket, e) (snd result))
  /\ (forall c, c <> socket ->
                In c (Io.members (io s) (Signal.streamId data)) ->
                In (c, relayed) (snd result))
  /\ (forall c e, In (c, e) (snd result) ->
                  In c (Io.members (io s) (Signal.streamId data))
                  /\ e = relayed)
  /\ fst result = s.
Proof.
  intros result relayed. subst result relayed.
  rewrite step_signal. unfold relay. simpl.
  split; [|split; [|split; trivial]].
  - intros e H. apply socket_to_emit_in in H. tauto.
  - intros c Hne Hin. apply socket_to_emit_in. auto.
  - intros c e H. apply socket_to_emit_in in H. tauto.
Qed.

(** C10: when the [userId] of an [offer], [answer] or [ice-candidate] is
    missing or the empty string, the event relayed to the other members of
    the group carries the id of the sending socket as its [userId]. *)
Theorem C10_falsy_userId_becomes_socket_id kind socket data s :
  Js.truthy (Signal.userId data) = false ->
  snd (step s (Message socket (signal_input kind data)))
  = Io.socket_to_emit (io s) socket (Signal.streamId data)
      (signal_output kind (Signal.body data) socket).
Proof.
  intros H. rewrite step_signal. unfold relay. simpl.
  now rewrite or_falsy.
Qed.

Lemma C10_witness :
  snd (step (state_after init broadcast_setup)
            (Message "sockB" (AnswerEv (Signal.mk "s1" "sdp" None))))
  = [("sockA", Answer "sdp" "sockB")].
Proof.
  apply (C10_falsy_userId_becomes_socket_id
           AnswerK "sockB" (Signal.mk "s1" "sdp" None)
           (state_after init broadcast_setup)).
  reflexivity.
Defined.

(** A [userId] that is present and not empty is relayed as it is. *)
Lemma relay_truthy_userId kind socket data u s :
  Signal.userId data = Some u -> u <> EmptyString ->
  snd (step s (Message socket (signal_input kind data)))
  = Io.socket_to_emit (io s) socket (Signal.streamId data)
      (signal_output kind (Signal.body data) u).
Proof.
  intros Hu Hne. rewrite step_signal. unfold relay. simpl.
  now rewrite Hu, or_truthy.
Qed.

(** ** Joining *)

Lemma join_found socket sid userId room s :
  JsMap.get (rooms s) sid = Some room ->
  rooms (fst (step s (Message socket
                        (JoinStreamEv (JoinStream.mk sid userId)))))
  = JsMap.set (rooms s) sid
      (Room.with_viewers room (Js.push (Room.viewers room) userId)).
Proof.
  intros H. simpl. unfold on_join_stream. simpl. now rewrite H.
Qed.





(** ** Viewers leaving *)

Lemma findIndex_none socketId l :
  Js.findIndex (fun id => String.eqb id socketId) l = None <->
  ~ In socketId l.
Proof.
  induction l as [|x l IH]; simpl; [tauto|].
  destruct (String.eqb_spec x socketId) as [->|Hne].
  - split; [discriminate | intros H; exfalso; apply H; now left].
  - destruct (Js.findIndex _ l).
    + split; [discriminate|]. intros H. exfalso. apply H. right.
      destruct (in_dec string_dec socketId l) as [|Hn]; trivial.
      apply IH in Hn. discriminate.
    + split; trivial. intros _ [H|H]; [auto|]. now apply IH.
Qed.

(** [findIndex] stops at the first occurrence. *)
Lemma findIndex_first socketId l :
  In socketId l ->
  exists before after,
    l = before ++ socketId :: after
    /\ ~ In socketId before
    /\ Js.findIndex (fun id => String.eqb id socketId) l
       = Some (List.length before).
Proof.
  induction l as [|x l IH]; simpl; [tauto|].
  intros Hin. destruct (String.eqb_spec x socketId) as [->|Hne].
  - exists [], l. simpl. auto.
  - destruct Hin as [|Hin]; [contradiction|].
    destruct (IH Hin) as (before & after & -> & Hb & Hf).
    exists (x :: before), after. rewrite Hf. simpl.
    repeat split; trivial. tauto.
Qed.

Lemma splice_one {A} (before after : list A) x :
  Js.splice (List.length before) 1 (before ++ x :: after) = before ++ after.
Proof.
  unfold Js.splice. f_equal.
  - rewrite firstn_app, Nat.sub_diag, firstn_all. simpl. apply app_nil_r.
  - rewrite Nat.add_1_r.
    change (before ++ x :: after) with (before ++ [x] ++ after).
    rewrite app_assoc.
    replace (S (List.length before)) with (List.length (before ++ [x]))
      by (rewrite length_app; simpl; lia).
    rewrite skipn_app, Nat.sub_diag, skipn_all. reflexivity.
Qed.

(** What a disconnect does to one room, case by case. *)
Lemma disconnect_room_viewer socketId room :
  Room.broadcaster room <> socketId ->
  In socketId (Room.viewers room) ->
  exists before after,
    Room.viewers room = before ++ socketId :: after
    /\ ~ In socketId before
    /\ disconnect_room socketId room
       = Some (Room.with_viewers room (before ++ after)).
Proof.
  intros Hb Hin. unfold disconnect_room.
  apply String.eqb_neq in Hb. rewrite Hb.
  destruct (findIndex_first socketId _ Hin) as (before & after & Hv & Hn & Hf).
  exists before, after. rewrite Hf. repeat split; trivial.
  do 2 f_equal. rewrite Hv. apply splice_one.
Qed.

Lemma disconnect_room_stranger socketId room :
  Room.broadcaster room <> socketId ->
  ~ In socketId (Room.viewers room) ->
  disconnect_room socketId room = Some room.
Proof.
  intros Hb Hn. unfold disconnect_room.
  apply String.eqb_neq in Hb. rewrite Hb.
  apply findIndex_none in Hn. now rewrite Hn.
Qed.

Lemma disconnect_room_broadcaster socketId room :
  Room.broadcaster room = socketId ->
  disconnect_room socketId room = None.
Proof.
  intros <-. unfold disconnect_room. now rewrite String.eqb_refl.
Qed.

Lemma disconnect_get socket s k :
  JsMap.wf (rooms s) ->
  JsMap.get (rooms (fst (step s (Disconnect socket)))) k
  = match JsMap.get (rooms s) k with
    | Some room => disconnect_room socket room
    | None => None
    end.
Proof.
  intros Hwf. cbn [step].
  rewrite handleDisconnect_eq by exact Hwf.
  now apply get_rooms_after_disconnect.
Qed.

(** C2, as the specification has it, fails: socket [B] is a viewer of
    [s1] and of [s2]; when it disconnects, [s2] loses its viewer as well
    as [s1], so a room other than [s1] has changed and two rooms are
    affected. *)
Lemma C2_two_rooms_affected :
  let s := state_after init two_rooms_setup in
  let s' := fst (step s (Disconnect "B")) in
  JsMap.get (rooms s) "s1" = Some (Room.mk "A" ["B"] "s1" None None)
  /\ JsMap.get (rooms s) "s2"
     = Some (Room.mk "C" ["B"] "s2" (Some "chess") None)
  /\ JsMap.get (rooms s') "s1" = Some (Room.mk "A" [] "s1" None None)
  /\ JsMap.get (rooms s') "s2"
     = Some (Room.mk "C" [] "s2" (Some "chess") None)
  /\ JsMap.get (rooms s') "s2" <> JsMap.get (rooms s) "s2".
Proof.
  repeat split. discriminate.
Qed.

(** C2, amended: when a socket id is listed among the viewers of a room
    it is not the broadcaster of, the disconnect of that socket removes
    the first occurrence of the id from that room's viewer list, so the
    viewer count goes down by exactly one, and keeps the room's
    broadcaster, title and category.  Every room that has the id neither
    as broadcaster nor among its viewers is left as it is; so when no
    other room has it, no other room is affected. *)
Theorem C2_viewer_disconnect s socket sid room :
  JsMap.wf (rooms s) ->
  JsMap.get (rooms s) sid = Some room ->
  In socket (Room.viewers room) ->
  Room.broadcaster room <> socket ->
  let s' := fst (step s (Disconnect socket)) in
  (exists room',
      JsMap.get (rooms s') sid = Some room'
      /\ S (List.length (Room.viewers room'))
         = List.length (Room.viewers room)
      /\ (exists before after,
             Room.viewers room = before ++ socket :: after
             /\ ~ In socket before
             /\ Room.viewers room' = before ++ after)
      /\ Room.broadcaster room' = Room.broadcaster room
      /\ Room.title room' = Room.title room
      /\ Room.category room' = Room.category room)
  /\ (forall sid' other,
         JsMap.get (rooms s) sid' = Some other ->
         Room.broadcaster other <> socket ->
         ~ In socket (Room.viewers other) ->
         JsMap.get (rooms s') sid' = Some other)
  /\ ((forall sid' other,
          sid' <> sid ->
          JsMap.get (rooms s) sid' = Some other ->
          Room.broadcaster other <> socket
          /\ ~ In socket (Room.viewers other)) ->
      forall sid', sid' <> sid ->
                   JsMap.get (rooms s') sid' = JsMap.get (rooms s) sid').
Proof.
  intros Hwf Hget Hin Hb s'. subst s'.
  split; [|split].
  - destruct (disconnect_room_viewer socket room Hb Hin)
      as (before & after & Hv & Hn & Hd).
    exists (Room.with_viewers room (before ++ after)).
    rewrite disconnect_get, Hget by exact Hwf.
    split; trivial. simpl. split.
    + rewrite Hv, !length_app. simpl. lia.
    + split; [|auto]. now exists before, after.
  - intros sid' other Hg Hb' Hn'.
    rewrite disconnect_get, Hg by exact Hwf.
    now apply disconnect_room_stranger.
  - intros Hothers sid' Hne.
    rewrite disconnect_get by exact Hwf.
    destruct (JsMap.get (rooms s) sid') as [other|] eqn:Hg; trivial.
    destruct (Hothers sid' other Hne Hg) as [Hb' Hn'].
    now apply disconnect_room_stranger.
Qed.

Lemma C2_witness :
  let s := state_after init scenario_setup in
  let room := Room.mk "A" ["B"] "s1" None None in
  let s' := fst (step s (Disconnect "B")) in
  (exists room',
      JsMap.get (rooms s') "s1" = Some room'
      /\ S (List.length (Room.viewers room'))
         = List.length (Room.viewers room)
      /\ (exists before after,
             Room.viewers room = before ++ "B" :: after
             /\ ~ In "B" before
             /\ Room.viewers room' = before ++ after)
      /\ Room.broadcaster room' = Room.broadcaster room
      /\ Room.title room' = Room.title room
      /\ Room.category room' = Room.category room)
  /\ (forall sid' other,
         JsMap.get (rooms s) sid' = Some other ->
         Room.broadcaster other <> "B" ->
         ~ In "B" (Room.viewers other) ->
         JsMap.get (rooms s') sid' = Some other)
  /\ ((forall sid' other,
          sid' <> "s1" ->
          JsMap.get (rooms s) sid' = Some other ->
          Room.broadcaster other <> "B"
          /\ ~ In "B" (Room.viewers other)) ->
      forall sid', sid' <> "s1" ->
                   JsMap.get (rooms s') sid' = JsMap.get (rooms s) sid').
Proof.
  apply (C2_viewer_disconnect
           (state_after init scenario_setup) "B" "s1"
           (Room.mk "A" ["B"] "s1" None None)).
  - apply distinct_NoDup. reflexivity.
  - reflexivity.
  - simpl. now left.
  - simpl. discriminate.
Defined.

(** ** The broadcaster leaving *)

Lemma summary_ids (m : JsMap.t Room.t) :
  map Info.id (map summary m) = JsMap.keys m.
Proof.
  unfold JsMap.keys. rewrite map_map. apply map_ext. now intros [k r].
Qed.

Lemma filter_ended_update sid i snapshot :
  filter (ended sid) (Io.emit i (StreamUpdate snapshot)) = [].
Proof.
  unfold Io.emit. induction (Io.connected i); simpl; trivial.
Qed.

Lemma filter_ended_to_emit sid i k :
  filter (ended sid) (Io.to_emit i k (StreamEnded k))
  = if String.eqb k sid then Io.to_emit i k (StreamEnded k) else [].
Proof.
  unfold Io.to_emit. induction (Io.members i k) as [|c l IH]; simpl.
  - now destruct (String.eqb k sid).
  - unfold ended at 1. simpl. rewrite IH.
    now destruct (String.eqb k sid).
Qed.

Lemma visit_emissions_ended socketId sid i now k r :
  filter (ended sid) (visit_emissions socketId i now (k, r))
  = if String.eqb (Room.broadcaster r) socketId && String.eqb k sid
    then Io.to_emit i k (StreamEnded k) else [].
Proof.
  unfold visit_emissions. cbn [fst snd].
  destruct (String.eqb (Room.broadcaster r) socketId); simpl.
  - now rewrite filter_app, filter_ended_update, filter_ended_to_emit,
      app_nil_r.
  - destruct (Js.findIndex _ _); trivial. apply filter_ended_update.
Qed.

(** The loop emits [stream-ended] for a stream id at the entry of that id
    only, and only when the socket id is its broadcaster. *)
Lemma trace_ended_absent socketId sid i : forall todo done,
  ~ In sid (JsMap.keys todo) ->
  filter (ended sid) (disconnect_trace socketId i done todo) = [].
Proof.
  induction todo as [|[k r] todo IH]; intros done Hn; simpl in *; trivial.
  rewrite filter_app, visit_emissions_ended, IH by tauto.
  assert (String.eqb k sid = false) as E by (apply String.eqb_neq; tauto).
  now rewrite E, andb_false_r.
Qed.

Lemma trace_ended socketId sid i room : forall todo done,
  JsMap.wf todo ->
  JsMap.get todo sid = Some room ->
  Room.broadcaster room = socketId ->
  filter (ended sid) (disconnect_trace socketId i done todo)
  = Io.to_emit i sid (StreamEnded sid).
Proof.
  unfold JsMap.wf.
  induction todo as [|[k r] todo IH]; intros done Hwf Hget Hb;
    simpl in *; [discriminate|].
  inversion Hwf as [|? ? Hk Hwf']; subst.
  rewrite filter_app, visit_emissions_ended.
  destruct (String.eqb_spec k sid) as [->|Hne].
  - injection Hget as ->. rewrite String.eqb_refl. simpl.
    rewrite trace_ended_absent by trivial. apply app_nil_r.
  - rewrite andb_false_r. simpl. now apply IH.
Qed.

(** Right after it has deleted the room, the loop broadcasts a snapshot
    that does not list it. *)
Lemma trace_broadcast socketId sid i room : forall todo done,
  JsMap.wf (done ++ todo) ->
  In (sid, room) todo ->
  Room.broadcaster room = socketId ->
  exists snapshot,
    ~ In sid (map Info.id snapshot)
    /\ forall c, In c (Io.connected i) ->
                 In (c, StreamUpdate snapshot)
                    (disconnect_trace socketId i done todo).
Proof.
  induction todo as [|[k r] todo IH]; intros done Hwf Hin Hb; [easy|].
  cbn [disconnect_trace].
  destruct Hin as [[= -> ->]|Hin].
  - unfold kept, visit_emissions. cbn [fst snd].
    rewrite disconnect_room_broadcaster by trivial.
    rewrite Hb, String.eqb_refl, app_nil_r.
    exists (map summary (done ++ todo)). split.
    + rewrite summary_ids. unfold JsMap.keys. rewrite map_app, in_app_iff.
      apply wf_middle in Hwf. tauto.
    + intros c Hc. rewrite !in_app_iff. left. right.
      unfold Io.emit. apply in_map_iff. eauto.
  - destruct (IH (done ++ kept socketId (k, r))) as [snapshot [Hs Hall]];
      trivial.
    { now apply wf_kept. }
    exists snapshot. split; trivial.
    intros c Hc. rewrite in_app_iff. right. auto.
Qed.

(** When the broadcaster field of a room is the id of the socket that
    disconnects, the room is deleted, the sockets still in its group are
    sent [stream-ended] once each, and a snapshot without the room goes to
    every socket still connected. *)
Lemma broadcaster_disconnect_by_socket_id s socket sid room :
  JsMap.wf (rooms s) ->
  Io.wf (io s) ->
  JsMap.get (rooms s) sid = Some room ->
  Room.broadcaster room = socket ->
  let remaining := Io.leave_all (io s) socket in
  let result := step s (Disconnect socket) in
  JsMap.get (rooms (fst result)) sid = None
  /\ map fst (filter (ended sid) (snd result)) = Io.members remaining sid
  /\ NoDup (Io.members remaining sid)
  /\ ~ In socket (Io.members remaining sid)
  /\ exists snapshot,
       ~ In sid (map Info.id snapshot)
       /\ forall c, In c (Io.connected remaining) ->
                    In (c, StreamUpdate snapshot) (snd result).
Proof.
  intros Hwf Hio Hget Hb remaining result.
  split; [|split; [|split; [|split]]].
  - subst result. rewrite disconnect_get, Hget by exact Hwf.
    now apply disconnect_room_broadcaster.
  - subst result. cbn [step]. rewrite handleDisconnect_eq by exact Hwf.
    cbn [snd rooms io with_io].
    rewrite (trace_ended socket sid _ room) by trivial.
    unfold Io.to_emit. rewrite map_map. apply map_id.
  - now apply members_NoDup, leave_all_wf.
  - intros H. apply members_connected in H. now apply leave_all_gone in H.
  - subst result. cbn [step]. rewrite handleDisconnect_eq by exact Hwf.
    cbn [snd rooms io with_io].
    apply (trace_broadcast socket sid _ room (rooms s) []); trivial.
    eapply get_some_in, Hget.
Qed.

(** A socket whose id is no room's broadcaster field and in no room's
    viewer list disconnects without any effect on the registry and
    without any emission. *)
Lemma disconnect_fold_strangers socket : forall todo acc,
  (forall k r, In (k, r) todo ->
               Room.broadcaster r <> socket /\ ~ In socket (Room.viewers r)) ->
  fold_left (disconnect_visit socket) todo acc = acc.
Proof.
  induction todo as [|[k r] todo IH]; intros acc Hall; trivial.
  cbn [fold_left].
  destruct (Hall k r (or_introl eq_refl)) as [Hb Hn].
  assert (disconnect_visit socket acc (k, r) = acc) as ->.
  { destruct acc as [s0 out]. cbn [disconnect_visit].
    apply String.eqb_neq in Hb. rewrite Hb.
    apply findIndex_none in Hn. now rewrite Hn. }
  apply IH. intros k' r' H. apply (Hall k' r'). now right.
Qed.

Lemma disconnect_stranger socket s :
  (forall k r, In (k, r) (rooms s) ->
               Room.broadcaster r <> socket /\ ~ In socket (Room.viewers r)) ->
  step s (Disconnect socket)
  = (with_io s (Io.leave_all (io s) socket), []).
Proof.
  intros Hall. cbn [step]. unfold handleDisconnect.
  now apply disconnect_fold_strangers.
Qed.

(** The run of section 8 of the specification, in which the creator's
    [userId] happens to be the id of its socket: the viewer is told the
    stream ended and the snapshot broadcast afterwards is empty. *)
Lemma scenario_ids_coincide :
  step (state_after init scenario_setup) (Disconnect "A")
  = (mkServer [] [("B", ["B"; "s1"])],
     [("B", StreamEnded "s1"); ("B", StreamUpdate [])]).
Proof. reflexivity. Qed.

(** C1 at a run the service can see: the broadcaster field of a room is
    the [userId] of the [create-stream] payload, which the creator check
    looks up as a user record, while [handleDisconnect] compares it with
    the id of the socket.  Creator [userA] starts [s1] over socket [sockA]
    and [sockB] joins; when [sockA] disconnects nothing is emitted, neither
    [stream-ended] to [sockB] nor a [stream-update], and [s1] is still in
    the snapshot a later [get-active-streams] gets. *)
Theorem C1_broadcaster_disconnect_keeps_room :
  let s := state_after init broadcast_setup in
  let result := step s (Disconnect "sockA") in
  Io.members (io s) "s1" = ["sockA"; "sockB"]
  /\ live_ids s = ["s1"]
  /\ snd result = []
  /\ rooms (fst result) = rooms s
  /\ Io.connected (io (fst result)) = ["sockB"]
  /\ snd (step (fst result) (Message "sockB" GetActiveStreams))
     = [("sockB",
         Callback [Info.mk "s1" "Untitled Stream" 1 "Uncategorized"
                           "userA" true])].
Proof. repeat split. Qed.

(** ** Rooms and their keys *)

Lemma in_set_inv {V} (m : JsMap.t V) k v k' v' :
  In (k', v') (JsMap.set m k v) -> (k', v') = (k, v) \/ In (k', v') m.
Proof.
  induction m as [|[a w] m IH]; simpl.
  - intros [H|[]]. left. now symmetry.
  - destruct (String.eqb_spec a k) as [->|Hne]; simpl.
    + intros [H|H]; [left; now symmetry | auto].
    + intros [H|H]; [auto|]. apply IH in H. tauto.
Qed.

Lemma keyed_set (m : JsMap.t Room.t) k room :
  keyed m -> Room.streamId room = k -> keyed (JsMap.set m k room).
Proof.
  intros Hm Hk k' room' Hin.
  apply in_set_inv in Hin as [[= -> ->]|Hin]; auto.
Qed.

(** What is left of a room that survives a disconnect: everything but,
    possibly, one occurrence of the socket id among its viewers. *)
Lemma disconnect_room_some socketId room room' :
  disconnect_room socketId room = Some room' ->
  Room.broadcaster room <> socketId
  /\ Room.broadcaster room' = Room.broadcaster room
  /\ Room.streamId room' = Room.streamId room
  /\ Room.title room' = Room.title room
  /\ Room.category room' = Room.category room
  /\ (room' = room /\ ~ In socketId (Room.viewers room)
      \/ exists before after,
           Room.viewers room = before ++ socketId :: after
           /\ ~ In socketId before
           /\ Room.viewers room' = before ++ after).
Proof.
  intros H.
  destruct (String.eqb_spec (Room.broadcaster room) socketId) as [Hb|Hb].
  - rewrite disconnect_room_broadcaster in H by trivial. discriminate.
  - split; trivial.
    destruct (in_dec string_dec socketId (Room.viewers room)) as [Hin|Hn].
    + destruct (disconnect_room_viewer socketId room Hb Hin)
        as (before & after & Hv & Hfirst & Hd).
      rewrite Hd in H. injection H as <-. simpl.
      repeat split; trivial. right. now exists before, after.
    + rewrite disconnect_room_stranger in H by trivial. injection H as <-.
      repeat split; trivial. now left.
Qed.

Lemma in_rooms_after_disconnect socketId (m : JsMap.t Room.t) k room' :
  In (k, room') (rooms_after_disconnect socketId m) <->
  exists room, In (k, room) m /\ disconnect_room socketId room = Some room'.
Proof.
  unfold rooms_after_disconnect. rewrite in_flat_map. split.
  - intros [[a r] [Hin Hk]]. unfold kept in Hk. cbn [fst snd] in Hk.
    destruct (disconnect_room socketId r) as [r'|] eqn:E; [|easy].
    destruct Hk as [[= -> ->]|[]]. eauto.
  - intros [room [Hin Hd]]. exists (k, room). split; trivial.
    unfold kept. cbn [fst snd]. rewrite Hd. now left.
Qed.

Lemma step_keyed s i :
  JsMap.wf (rooms s) -> keyed (rooms s) -> keyed (rooms (fst (step s i))).
Proof.
  intros Hwf Hk. destruct i as [socket|socket e|socket]; simpl; trivial.
  - destruct e as [data lookup|data|data|data|data|]; simpl; trivial.
    + destruct (is_creator lookup) eqn:E.
      * rewrite on_create_stream_accepted by trivial. now apply keyed_set.
      * now rewrite on_create_stream_rejected.
    + unfold on_join_stream.
      destruct (JsMap.get (rooms s) (JoinStream.streamId data)) as [room|]
        eqn:G; simpl; trivial.
      apply keyed_set; trivial. simpl. apply Hk. eapply get_some_in, G.
  - rewrite handleDisconnect_eq by trivial. simpl.
    intros k room' Hin.
    apply in_rooms_after_disconnect in Hin as [room [Hin Hd]].
    apply disconnect_room_some in Hd as (_ & _ & -> & _). now apply Hk.
Qed.

Lemma reachable_keyed inputs : keyed (rooms (state_after init inputs)).
Proof.
  assert (forall s, JsMap.wf (rooms s) -> keyed (rooms s) ->
                    keyed (rooms (state_after s inputs))) as H.
  { induction inputs as [|i rest IH]; intros s Hwf Hk; trivial.
    rewrite run_cons. apply IH; [now apply step_wf | now apply step_keyed]. }
  apply H; [constructor | intros k room []].
Qed.

(** X3: in every state the service can reach from its start, whatever the
    clients send, the snapshot lists no stream id twice, no socket id is
    connected twice, and every room is stored under the [streamId] it
    carries. *)
Theorem X3_reachable_invariants inputs :
  let s := state_after init inputs in
  NoDup (live_ids s)
  /\ NoDup (Io.connected (io s))
  /\ (forall k room, In (k, room) (rooms s) -> Room.streamId room = k)
  /\ (forall sid room, getStream s sid = Some room ->
                       Room.streamId room = sid).
Proof.
  intros s. subst s.
  destruct (reachable_wf inputs) as [Hwf Hio].
  pose proof (reachable_keyed inputs) as Hk.
  rewrite live_ids_keys. repeat split; trivial.
  intros sid room H. apply Hk. eapply get_some_in, H.
Qed.

(** X4: in every reachable state the two public accessors agree with the
    snapshot: [getActiveStreams] returns the rooms in the order of the
    snapshot, with the same ids, viewer counts and broadcasters, and
    [getStream] finds exactly the rooms [getActiveStreams] returns, each
    under its [streamId], and nothing under an id that is not listed. *)
Theorem X4_accessors_agree_with_snapshot inputs :
  let s := state_after init inputs in
  map Room.streamId (getActiveStreams s) = live_ids s
  /\ map (fun room => List.length (Room.viewers room)) (getActiveStreams s)
     = map Info.viewers (getActiveStreamsInfo s)
  /\ map Room.broadcaster (getActiveStreams s)
     = map Info.streamer (getActiveStreamsInfo s)
  /\ (forall sid room,
         getStream s sid = Some room <->
         In room (getActiveStreams s) /\ Room.streamId room = sid)
  /\ (forall sid, getStream s sid = None <-> ~ In sid (live_ids s)).
Proof.
  intros s. subst s.
  destruct (reachable_wf inputs) as [Hwf _].
  pose proof (reachable_keyed inputs) as Hk.
  set (s := state_after init inputs) in *.
  unfold getActiveStreams, getStream, getActiveStreamsInfo.
  split; [|split; [|split; [|split]]].
  - rewrite live_ids_keys. unfold JsMap.keys. rewrite map_map.
    apply map_ext_in. intros [k room] Hin. simpl. now apply Hk.
  - rewrite !map_map. apply map_ext. now intros [k room].
  - rewrite !map_map. apply map_ext. now intros [k room].
  - intros sid room. split.
    + intros H. apply get_some_in in H. split; [|now apply Hk].
      change room with (snd (sid, room)). now apply in_map.
    + intros [Hin Hsid]. apply in_map_iff in Hin as [[k r] [Hr Hin]].
      simpl in Hr. subst r. rewrite <- Hsid, (Hk k room Hin).
      now apply in_get_some.
  - intros sid. rewrite live_ids_keys. apply get_none_keys.
Qed.

(** ** Groups *)

Lemma in_members i room c :
  In c (Io.members i room) <->
  exists groups, In (c, groups) i /\ existsb (String.eqb room) groups = true.
Proof.
  unfold Io.members. rewrite in_map_iff. split.
  - intros [[c' groups] [Hc Hin]]. simpl in Hc. subst c'.
    apply filter_In in Hin as [Hin Hg]. eauto.
  - intros [groups [Hin Hg]]. exists (c, groups). split; trivial.
    apply filter_In. auto.
Qed.

Lemma in_connected i c :
  In c (Io.connected i) <-> exists groups, In (c, groups) i.
Proof.
  unfold Io.connected. rewrite in_map_iff. split.
  - intros [[c' groups] [Hc Hin]]. simpl in Hc. subst c'. eauto.
  - intros [groups Hin]. now exists (c, groups).
Qed.

(** Adding a group to a list of groups, as [socket.join] does. *)
Lemma joined_groups room added groups :
  existsb (String.eqb room)
          (if existsb (String.eqb added) groups then groups
           else groups ++ [added])
  = existsb (String.eqb room) groups || String.eqb room added.
Proof.
  destruct (existsb (String.eqb added) groups) eqn:E.
  - destruct (String.eqb_spec room added) as [->|Hne].
    + now rewrite E.
    + now rewrite orb_false_r.
  - rewrite existsb_app. simpl. now rewrite orb_false_r.
Qed.

(** [socket.join] puts the socket, when it is connected, in the group, and
    changes nothing else. *)
Lemma members_join i socket added room c :
  In c (Io.members (Io.join i socket added) room) <->
  In c (Io.members i room)
  \/ (c = socket /\ room = added /\ In socket (Io.connected i)).
Proof.
  rewrite !in_members, in_connected.
  induction i as [|[s0 groups0] i IH]; simpl.
  - split; [intros [g [[] _]] | intros [[g [[] _]]|(_ & _ & [g []])]].
  - destruct (String.eqb_spec s0 socket) as [->|Hne]; simpl.
    + split.
      * intros [g [[H|H] Hg]].
        -- injection H as <- <-. rewrite joined_groups in Hg.
           apply orb_true_iff in Hg as [Hg|Hg].
           ++ left. exists groups0. auto.
           ++ apply String.eqb_eq in Hg. right. repeat split; trivial.
              exists groups0. now left.
        -- left. exists g. auto.
      * intros [[g [[H|H] Hg]]|(-> & -> & _)].
        -- injection H as <- <-. eexists. split; [now left|].
           rewrite joined_groups, Hg. reflexivity.
        -- exists g. auto.
        -- eexists. split; [now left|].
           rewrite joined_groups, String.eqb_refl. apply orb_true_r.
    + split.
      * intros [g [[H|H] Hg]].
        -- left. exists g. auto.
        -- destruct (proj1 IH (ex_intro _ g (conj H Hg)))
             as [[g' [H' Hg']]|(-> & -> & [g' H'])].
           ++ left. exists g'. auto.
           ++ right. repeat split; trivial. exists g'. now right.
      * intros [[g [[H|H] Hg]]|(-> & -> & [g [H|H]])].
        -- exists g. auto.
        -- destruct (proj2 IH (or_introl (ex_intro _ g (conj H Hg))))
             as [g' [H' Hg']].
           exists g'. auto.
        -- injection H as H _. contradiction.
        -- destruct (proj2 IH (or_intror
                                 (conj eq_refl (conj eq_refl
                                    (ex_intro _ g H)))))
             as [g' [H' Hg']].
           exists g'. auto.
Qed.

Lemma members_leave_all i socket room c :
  In c (Io.members (Io.leave_all i socket) room) <->
  c <> socket /\ In c (Io.members i room).
Proof.
  rewrite !in_members. unfold Io.leave_all. split.
  - intros [g [Hin Hg]]. apply filter_In in Hin as [Hin Hne].
    apply negb_true_iff, String.eqb_neq in Hne. simpl in Hne. eauto.
  - intros [Hne [g [Hin Hg]]]. exists g. split; trivial.
    apply filter_In. split; trivial.
    now apply negb_true_iff, String.eqb_neq.
Qed.

(** The handlers call [socket.join] for the requesting socket, after a
    creation or a join that goes through, and not otherwise. *)
Lemma step_message_io s socket e :
  io (fst (step s (Message socket e)))
  = match joins_group s e with
    | Some room => Io.join (io s) socket room
    | None => io s
    end.
Proof.
  destruct e as [data lookup|data|data|data|data|]; simpl; trivial.
  - destruct (is_creator lookup) eqn:E.
    + now rewrite on_create_stream_accepted.
    + now rewrite on_create_stream_rejected.
  - unfold on_join_stream.
    now destruct (JsMap.get (rooms s) (JoinStream.streamId data)).
Qed.

(** X12: group membership changes in two ways only.  A client event puts
    the requesting socket, if it is connected, in the group of the stream
    it has just created or joined, and leaves every other membership as it
    was: nobody is ever removed by a client event, not even from the group
    of a stream that is created again.  A disconnect takes the
    disconnecting socket out of every group and leaves the others where
    they were. *)
Theorem X12_groups_change_only_by_join_and_disconnect s socket c room :
  (forall e,
      In c (Io.members (io (fst (step s (Message socket e)))) room) <->
      In c (Io.members (io s) room)
      \/ (c = socket /\ joins_group s e = Some room
          /\ In socket (Io.connected (io s))))
  /\ (In c (Io.members (io (fst (step s (Disconnect socket)))) room) <->
      c <> socket /\ In c (Io.members (io s) room)).
Proof.
  split.
  - intros e. rewrite step_message_io.
    destruct (joins_group s e) as [added|].
    + rewrite members_join. split.
      * intros [H|(-> & -> & H)]; auto.
      * intros [H|(-> & [= ->] & H)]; auto.
    + split; [auto|]. intros [H|(_ & H & _)]; [trivial|discriminate].
  - cbn [step]. rewrite handleDisconnect_io. simpl.
    apply members_leave_all.
Qed.

(** ** What a successful request does *)

Lemma in_set_other {V} (m : JsMap.t V) k v k' v' :
  In (k', v') m -> k' <> k -> In (k', v') (JsMap.set m k v).
Proof.
  intros Hin Hne. induction m as [|[a w] m IH]; simpl in *; [easy|].
  destruct (String.eqb_spec a k) as [->|Hak]; simpl.
  - destruct Hin as [[= -> ->]|Hin]; [contradiction | now right].
  - destruct Hin as [H|Hin]; [now left | right; auto].
Qed.

Lemma emit_in i e c e' :
  In (c, e') (Io.emit i e) <-> In c (Io.connected i) /\ e' = e.
Proof.
  unfold Io.emit. rewrite in_map_iff. split.
  - intros [x [[= -> <-] Hin]]. auto.
  - intros [Hin ->]. eauto.
Qed.

Lemma to_emit_in i room e c e' :
  In (c, e') (Io.to_emit i room e) <-> In c (Io.members i room) /\ e' = e.
Proof.
  unfold Io.to_emit. rewrite in_map_iff. split.
  - intros [x [[= -> <-] Hin]]. auto.
  - intros [Hin ->]. eauto.
Qed.

(** X1: a [join-stream] that finds its room appends the [userId] of the
    request to the room's viewers and changes no other room and not the
    order of the snapshot; the entry of the stream in the new snapshot
    counts one viewer more.  Every other socket of the stream's group is
    sent [viewer-joined] and [stream-started], every connected socket is
    sent the new snapshot, and the joining socket itself gets nothing but
    that snapshot. *)
Theorem X1_join_adds_one_viewer socket data room s :
  JsMap.wf (rooms s) ->
  JsMap.get (rooms s) (JoinStream.streamId data) = Some room ->
  let sid := JoinStream.streamId data in
  let userId := JoinStream.userId data in
  let result := step s (Message socket (JoinStreamEv data)) in
  let snapshot := getActiveStreamsInfo (fst result) in
  getStream (fst result) sid
  = Some (Room.with_viewers room (Room.viewers room ++ [userId]))
  /\ (forall k, k <> sid -> getStream (fst result) k = getStream s k)
  /\ live_ids (fst result) = live_ids s
  /\ filter (fun i => String.eqb (Info.id i) sid) snapshot
     = [Info.mk sid (Js.or (Room.title room) "Untitled Stream")
                (S (List.length (Room.viewers room)))
                (Js.or (Room.category room) "Uncategorized")
                (Room.broadcaster room) true]
  /\ (forall c, c <> socket -> In c (Io.members (io s) sid) ->
                In (c, ViewerJoined userId sid) (snd result)
                /\ In (c, StreamStarted sid userId) (snd result))
  /\ (forall c, In c (Io.connected (io s)) ->
                In (c, StreamUpdate snapshot) (snd result))
  /\ (forall e, In (socket, e) (snd result) -> e = StreamUpdate snapshot).
Proof.
  intros Hwf Hget sid userId result snapshot.
  subst snapshot result. cbn [step]. unfold on_join_stream, getStream.
  rewrite Hget. cbn [fst snd rooms io with_rooms with_io].
  fold sid userId. fold sid in Hget. unfold Js.push.
  split; [apply get_set_eq|].
  split; [intros k Hk; now apply get_set_neq|].
  split.
  { rewrite !live_ids_keys. cbn [rooms].
    apply keys_set_present. eapply get_some_keys, Hget. }
  split.
  { unfold getActiveStreamsInfo. cbn [rooms].
    rewrite (snapshot_entries_of _ sid
               (Room.with_viewers room (Room.viewers room ++ [userId])));
      [|now apply set_wf|apply get_set_eq].
    simpl. now rewrite length_app, Nat.add_1_r. }
  split.
  { intros c Hne Hin. rewrite !in_app_iff, !socket_to_emit_in.
    assert (In c (Io.members (Io.join (io s) socket sid) sid)) as Hin'
        by (apply members_join; auto).
    split; [left | right; left]; auto. }
  split.
  { intros c Hin. rewrite !in_app_iff. right. right.
    apply emit_in. rewrite join_connected. auto. }
  intros e Hin. rewrite !in_app_iff, !socket_to_emit_in, emit_in in Hin.
  destruct Hin as [[H _]|[[H _]|[_ H]]]; [now contradiction H.. | exact H].
Qed.

Lemma X1_witness :
  let s := state_after init scenario_setup in
  let result :=
    step s (Message "B" (JoinStreamEv (JoinStream.mk "s1" "B"))) in
  getStream (fst result) "s1" = Some (Room.mk "A" ["B"; "B"] "s1" None None)
  /\ filter (fun i => String.eqb (Info.id i) "s1")
            (getActiveStreamsInfo (fst result))
     = [Info.mk "s1" "Untitled Stream" 2 "Uncategorized" "A" true]
  /\ In ("A", ViewerJoined "B" "s1") (snd result)
  /\ In ("A", StreamStarted "s1" "B") (snd result).
Proof.
  intros s result.
  destruct (X1_join_adds_one_viewer
              "B" (JoinStream.mk "s1" "B")
              (Room.mk "A" ["B"] "s1" None None) s)
    as (Hroom & _ & _ & Hentry & Hothers & _).
  - apply distinct_NoDup. reflexivity.
  - reflexivity.
  - split; [exact Hroom|]. split; [exact Hentry|].
    apply (Hothers "A"); [discriminate | simpl; now left].
Defined.

(** X11: a [create-stream] that passes the creator check sends
    [stream-created] to the requester and then the new snapshot to every
    connected socket, and nothing else.  The snapshot lists the stream
    once, with no viewers and the [userId] of the request as streamer; a
    stream id that was live keeps its place in the snapshot, a new one
    goes to the end; the entries of the other streams are as before. *)
Theorem X11_create_announces_stream socket data lookup s :
  JsMap.wf (rooms s) ->
  is_creator lookup = true ->
  let sid := CreateStream.streamId data in
  let result := step s (Message socket (CreateStreamEv data lookup)) in
  let snapshot := getActiveStreamsInfo (fst result) in
  snd result
  = (socket, StreamCreated sid)
    :: map (fun c => (c, StreamUpdate snapshot)) (Io.connected (io s))
  /\ filter (fun i => String.eqb (Info.id i) sid) snapshot
     = [Info.mk sid (Js.or (CreateStream.title data) "Untitled Stream") 0
                (Js.or (CreateStream.category data) "Uncategorized")
                (CreateStream.userId data) true]
  /\ live_ids (fst result)
     = (if existsb (String.eqb sid) (live_ids s) then live_ids s
        else live_ids s ++ [sid])
  /\ (forall info, Info.id info <> sid ->
                   (In info snapshot <-> In info (getActiveStreamsInfo s))).
Proof.
  intros Hwf Hok sid result snapshot. subst snapshot result. cbn [step].
  rewrite on_create_stream_accepted by trivial. fold sid.
  cbn [fst snd rooms io].
  split.
  { unfold Io.emit. now rewrite join_connected. }
  split.
  { unfold getActiveStreamsInfo. cbn [rooms].
    rewrite (snapshot_entries_of _ sid
               (Room.mk (CreateStream.userId data) [] sid
                        (CreateStream.title data)
                        (CreateStream.category data)));
      [reflexivity|now apply set_wf|apply get_set_eq]. }
  split.
  { rewrite !live_ids_keys. cbn [rooms].
    destruct (existsb (String.eqb sid) (JsMap.keys (rooms s))) eqn:E.
    - apply keys_set_present.
      apply existsb_exists in E as [k [Hin Hk]].
      apply String.eqb_eq in Hk. now subst k.
    - apply keys_set_absent. intros Hin.
      assert (existsb (String.eqb sid) (JsMap.keys (rooms s)) = true) as E'
          by (apply existsb_exists; exists sid; split; trivial;
              apply String.eqb_refl).
      congruence. }
  intros info Hne. unfold getActiveStreamsInfo. cbn [rooms].
  rewrite !in_map_iff. split.
  - intros [[k r] [<- Hin]]. simpl in Hne.
    apply in_set_inv in Hin as [[= -> ->]|Hin]; [contradiction|].
    now exists (k, r).
  - intros [[k r] [<- Hin]]. simpl in Hne.
    exists (k, r). split; trivial. now apply in_set_other.
Qed.

Lemma X11_witness :
  let s := state_after init two_rooms_setup in
  let data := CreateStream.mk "s1" "D" (Some "go") None in
  let result := step s (Message "C" (CreateStreamEv data approved)) in
  snd result
  = [("C", StreamCreated "s1");
     ("A", StreamUpdate (getActiveStreamsInfo (fst result)));
     ("C", StreamUpdate (getActiveStreamsInfo (fst result)));
     ("B", StreamUpdate (getActiveStreamsInfo (fst result)))]
  /\ filter (fun i => String.eqb (Info.id i) "s1")
            (getActiveStreamsInfo (fst result))
     = [Info.mk "s1" "go" 0 "Uncategorized" "D" true]
  /\ live_ids (fst result) = ["s1"; "s2"].
Proof.
  intros s data result.
  destruct (X11_create_announces_stream "C" data approved s)
    as (Hout & Hentry & Hids & _).
  - apply distinct_NoDup. reflexivity.
  - reflexivity.
  - split; [exact Hout|]. split; [exact Hentry | exact Hids].
Defined.

(** ** What a disconnect emits *)

Lemma visit_emissions_in socketId i now entry c e :
  In (c, e) (visit_emissions socketId i now entry) ->
  (e = StreamEnded (fst entry)
   /\ Room.broadcaster (snd entry) = socketId
   /\ In c (Io.members i (fst entry)))
  \/ (e = StreamUpdate (map summary now) /\ In c (Io.connected i)).
Proof.
  unfold visit_emissions.
  destruct (String.eqb_spec (Room.broadcaster (snd entry)) socketId)
    as [Hb|Hb].
  - rewrite in_app_iff, to_emit_in, emit_in. intros [[H ->]|[H ->]]; auto.
  - destruct (Js.findIndex _ _); [|easy].
    rewrite emit_in. intros [H ->]. auto.
Qed.

Lemma disconnect_trace_in socketId i c e : forall todo done,
  In (c, e) (disconnect_trace socketId i done todo) ->
  (exists sid room,
      e = StreamEnded sid /\ In (sid, room) todo
      /\ Room.broadcaster room = socketId /\ In c (Io.members i sid))
  \/ ((exists snapshot, e = StreamUpdate snapshot)
      /\ In c (Io.connected i)).
Proof.
  induction todo as [|[k r] todo IH]; intros done Hin; [easy|].
  cbn [disconnect_trace] in Hin. apply in_app_iff in Hin as [Hin|Hin].
  - apply visit_emissions_in in Hin as [(-> & Hb & Hc)|[-> Hc]].
    + left. exists k, r. simpl. auto.
    + right. eauto.
  - apply IH in Hin as [(sid & room & -> & Hin & Hb & Hc)|H]; [|auto].
    left. exists sid, room. simpl. auto.
Qed.

(** The loop ends with the broadcast of the registry it leaves, unless it
    has changed nothing and emitted nothing. *)
Lemma disconnect_trace_last socketId i : forall todo done,
  (disconnect_trace socketId i done todo = []
   /\ rooms_after_disconnect socketId todo = todo)
  \/ exists before,
       disconnect_trace socketId i done todo
       = before ++ Io.emit i (StreamUpdate
                                (map summary
                                   (done ++ rooms_after_disconnect
                                              socketId todo))).
Proof.
  induction todo as [|[k r] todo IH]; intros done; [now left|].
  cbn [disconnect_trace rooms_after_disconnect flat_map].
  fold (rooms_after_disconnect socketId todo).
  destruct (IH (done ++ kept socketId (k, r))) as [[Hnil Hsame]|[before H]].
  - rewrite Hnil, Hsame. clear Hnil Hsame IH.
    unfold visit_emissions, kept, disconnect_room. cbn [fst snd].
    destruct (String.eqb (Room.broadcaster r) socketId).
    + right.
      exists (Io.to_emit i k (StreamEnded k)).
      now rewrite !app_nil_r.
    + destruct (Js.findIndex _ _) as [viewerIndex|].
      * right. exists []. rewrite app_nil_r. cbn [app].
        now rewrite <- app_assoc.
      * now left.
  - right. rewrite H.
    exists (visit_emissions socketId i
              ((done ++ kept socketId (k, r)) ++ todo) (k, r) ++ before).
    rewrite (app_assoc done (kept socketId (k, r))
               (rooms_after_disconnect socketId todo)).
    apply app_assoc.
Qed.

(** X2: whatever input the service handles, either the registry is as it
    was and no [stream-update] is sent, or the last thing the handler does
    is to send the snapshot of the state it leaves to every connected
    socket; so after a change every connected client has been sent the
    list a [get-active-streams] would return, also when one disconnect
    changes several rooms and broadcasts several times. *)
Theorem X2_registry_changes_are_broadcast s i :
  JsMap.wf (rooms s) ->
  let result := step s i in
  (rooms (fst result) = rooms s
   /\ forall c snapshot, ~ In (c, StreamUpdate snapshot) (snd result))
  \/ exists before,
       snd result
       = before ++ map (fun c => (c, StreamUpdate
                                       (getActiveStreamsInfo (fst result))))
                       (Io.connected (io (fst result))).
Proof.
  intros Hwf result. subst result.
  destruct i as [socket|socket e|socket].
  - left. split; [reflexivity | intros c snapshot []].
  - destruct e as [data lookup|data|data|data|data|]; cbn [step].
    + destruct (is_creator lookup) eqn:E.
      * right. rewrite on_create_stream_accepted by trivial.
        now exists [(socket, StreamCreated (CreateStream.streamId data))].
      * left. rewrite on_create_stream_rejected by trivial.
        split; [reflexivity|]. intros c snapshot [[=]|[]].
    + unfold on_join_stream.
      destruct (JsMap.get (rooms s) (JoinStream.streamId data)).
      * right. eexists. cbn [snd]. rewrite app_assoc. reflexivity.
      * left. split; [reflexivity|]. intros c snapshot [[=]|[]].
    + left. split; [reflexivity|]. intros c snapshot H.
      apply socket_to_emit_in in H as (_ & _ & [=]).
    + left. split; [reflexivity|]. intros c snapshot H.
      apply socket_to_emit_in in H as (_ & _ & [=]).
    + left. split; [reflexivity|]. intros c snapshot H.
      apply socket_to_emit_in in H as (_ & _ & [=]).
    + left. split; [reflexivity|]. intros c snapshot [[=]|[]].
  - cbn [step]. rewrite handleDisconnect_eq by exact Hwf.
    cbn [fst snd rooms io with_io].
    destruct (disconnect_trace_last
                socket (Io.leave_all (io s) socket) (rooms s) [])
      as [[Hnil Hsame]|[before H]].
    + left. rewrite Hnil, Hsame. split; [reflexivity | intros c snapshot []].
    + right. exists before. exact H.
Qed.

Lemma X2_witness :
  let s := state_after init two_rooms_setup in
  let result := step s (Disconnect "B") in
  (rooms (fst result) = rooms s
   /\ forall c snapshot, ~ In (c, StreamUpdate snapshot) (snd result))
  \/ exists before,
       snd result
       = before ++ map (fun c => (c, StreamUpdate
                                       (getActiveStreamsInfo (fst result))))
                       (Io.connected (io (fst result))).
Proof.
  apply (X2_registry_changes_are_broadcast
           (state_after init two_rooms_setup) (Disconnect "B")).
  apply distinct_NoDup. reflexivity.
Defined.

(** The loop emits to connected sockets only, whatever the registry looks
    like. *)
Lemma handleDisconnect_targets socketId s c e :
  In (c, e) (snd (handleDisconnect socketId s)) -> In c (Io.connected (io s)).
Proof.
  unfold handleDisconnect.
  assert (forall todo acc,
             In (c, e) (snd (fold_left (disconnect_visit socketId) todo acc)) ->
             In (c, e) (snd acc) \/ In c (Io.connected (io (fst acc))))
    as Hloop.
  { induction todo as [|[k r] todo IH]; intros acc H; [now left|].
    cbn [fold_left] in H. apply IH in H.
    rewrite disconnect_visit_io in H. destruct H as [H|H]; [|now right].
    destruct acc as [s0 out]. cbn [disconnect_visit fst snd] in *.
    destruct (String.eqb (Room.broadcaster r) socketId).
    - cbn [snd io with_rooms] in H.
      rewrite !in_app_iff, to_emit_in, emit_in in H.
      destruct H as [H|[[H _]|[H _]]]; auto.
      right. eapply members_connected, H.
    - destruct (Js.findIndex _ _); [|now left].
      cbn [snd io with_rooms] in H. rewrite in_app_iff, emit_in in H.
      destruct H as [H|[H _]]; auto. }
  intros H. apply Hloop in H as [[]|H]. exact H.
Qed.

(** X5: every emission of a handler goes to a socket that is connected
    when the handler is done, or is the direct answer to the socket that
    sent the client event; the handler of a disconnect sends nothing to the
    socket that has gone. *)
Theorem X5_emissions_reach_connected_sockets s i c e :
  In (c, e) (snd (step s i)) ->
  (In c (Io.connected (io (fst (step s i))))
   \/ exists ev, i = Message c ev)
  /\ i <> Disconnect c.
Proof.
  intros Hin. destruct i as [socket|socket ev|socket]; [easy| |].
  - split; [|discriminate].
    destruct ev as [data lookup|data|data|data|data|]; cbn [step] in *.
    + destruct (is_creator lookup) eqn:E.
      * rewrite on_create_stream_accepted in * by trivial.
        cbn [fst snd io] in *. destruct Hin as [[= <- _]|Hin]; [eauto|].
        apply emit_in in Hin as [Hin _]. now left.
      * rewrite on_create_stream_rejected in Hin by trivial.
        destruct Hin as [[= <- _]|[]]. eauto.
    + unfold on_join_stream in *.
      destruct (JsMap.get (rooms s) (JoinStream.streamId data)).
      * cbn [fst snd io with_io with_rooms] in *.
        rewrite !in_app_iff, !socket_to_emit_in, emit_in in Hin.
        left. destruct Hin as [(_ & H & _)|[(_ & H & _)|[H _]]]; trivial;
          eapply members_connected, H.
      * destruct Hin as [[= <- _]|[]]. eauto.
    + apply socket_to_emit_in in Hin as (_ & H & _).
      left. eapply members_connected, H.
    + apply socket_to_emit_in in Hin as (_ & H & _).
      left. eapply members_connected, H.
    + apply socket_to_emit_in in Hin as (_ & H & _).
      left. eapply members_connected, H.
    + destruct Hin as [[= <- _]|[]]. eauto.
  - cbn [step] in *. apply handleDisconnect_targets in Hin.
    cbn [io with_io] in Hin. rewrite handleDisconnect_io. cbn [io with_io].
    split; [now left|].
    intros [= ->]. now apply leave_all_gone in Hin.
Qed.

Lemma X5_witness :
  (In "C" (Io.connected
             (io (fst (step (state_after init two_rooms_setup)
                            (Disconnect "B")))))
   \/ exists ev, Disconnect "B" = Message "C" ev)
  /\ Disconnect "B" <> Disconnect "C".
Proof.
  apply (X5_emissions_reach_connected_sockets
           (state_after init two_rooms_setup) (Disconnect "B") "C"
           (StreamUpdate [Info.mk "s1" "Untitled Stream" 0 "Uncategorized"
                                  "A" true;
                          Info.mk "s2" "chess" 0 "Uncategorized" "C" true])).
  vm_compute. tauto.
Defined.

(** ** What a disconnect leaves *)

Lemma keys_rooms_after_disconnect socketId (m : JsMap.t Room.t) :
  JsMap.keys (rooms_after_disconnect socketId m)
  = map fst (filter (survives socketId) m).
Proof.
  induction m as [|[k r] m IH]; trivial.
  cbn [rooms_after_disconnect flat_map filter].
  fold (rooms_after_disconnect socketId m).
  unfold JsMap.keys in *. rewrite map_app, IH.
  unfold kept, survives, disconnect_room. cbn [fst snd].
  destruct (String.eqb (Room.broadcaster r) socketId); trivial.
  now destruct (Js.findIndex _ _).
Qed.

(** X6: when the broadcaster field of a live room is the id of the socket
    that disconnects, the room is deleted and stays out of every later
    snapshot until a [create-stream] for its id passes the creator check
    again; [stream-ended] for it goes to the sockets that are in its group
    and still connected, once to each and never to the socket that has
    gone; and a snapshot that does not list the room goes to every socket
    still connected. *)
Theorem X6_broadcaster_socket_disconnect s socket sid room :
  JsMap.wf (rooms s) ->
  Io.wf (io s) ->
  getStream s sid = Some room ->
  Room.broadcaster room = socket ->
  let remaining := Io.leave_all (io s) socket in
  let result := step s (Disconnect socket) in
  getStream (fst result) sid = None
  /\ (forall later,
         In sid (live_ids (state_after (fst result) later)) ->
         existsb (creates sid) later = true)
  /\ map fst (filter (ended sid) (snd result)) = Io.members remaining sid
  /\ NoDup (Io.members remaining sid)
  /\ (forall c, In c (Io.members remaining sid) <->
                c <> socket /\ In c (Io.members (io s) sid))
  /\ exists snapshot,
       ~ In sid (map Info.id snapshot)
       /\ forall c, In c (Io.connected remaining) ->
                    In (c, StreamUpdate snapshot) (snd result).
Proof.
  intros Hwf Hio Hget Hb remaining result.
  destruct (broadcaster_disconnect_by_socket_id s socket sid room
              Hwf Hio Hget Hb)
    as (Hgone & Hended & Hnodup & _ & Hsnap).
  fold remaining result in Hgone, Hended, Hnodup, Hsnap.
  split; [exact Hgone|]. split.
  - intros later Hin.
    apply run_live_id_origin in Hin as [Hin|Hin]; trivial.
    rewrite live_ids_keys in Hin. now apply get_none_keys in Hgone.
  - split; [exact Hended|]. split; [exact Hnodup|].
    split; [intros c; apply members_leave_all | exact Hsnap].
Qed.

Lemma X6_witness :
  let s := state_after init scenario_setup in
  let result := step s (Disconnect "A") in
  getStream (fst result) "s1" = None
  /\ map fst (filter (ended "s1") (snd result)) = ["B"]
  /\ exists snapshot,
       ~ In "s1" (map Info.id snapshot)
       /\ In ("B", StreamUpdate snapshot) (snd result).
Proof.
  intros s result.
  destruct (X6_broadcaster_socket_disconnect
              s "A" "s1" (Room.mk "A" ["B"] "s1" None None))
    as (Hgone & _ & Hended & _ & _ & snapshot & Hnot & Hall).
  - apply distinct_NoDup. reflexivity.
  - apply distinct_NoDup. reflexivity.
  - reflexivity.
  - reflexivity.
  - split; [exact Hgone|]. split; [exact Hended|].
    exists snapshot. split; [exact Hnot|].
    apply Hall. simpl. now left.
Defined.

(** X7: the handler of a disconnect emits [stream-ended] and
    [stream-update] events and nothing else, and a [stream-ended] only for
    a room that was live with the socket id as its broadcaster field and is
    deleted by this disconnect, to a socket of that room's group other
    than the one that has gone. *)
Theorem X7_stream_ended_only_for_deleted_rooms s socket c e :
  JsMap.wf (rooms s) ->
  In (c, e) (snd (step s (Disconnect socket))) ->
  (exists snapshot, e = StreamUpdate snapshot)
  \/ exists sid room,
       e = StreamEnded sid
       /\ getStream s sid = Some room
       /\ Room.broadcaster room = socket
       /\ getStream (fst (step s (Disconnect socket))) sid = None
       /\ c <> socket
       /\ In c (Io.members (io s) sid).
Proof.
  intros Hwf Hin.
  cbn [step] in Hin. rewrite handleDisconnect_eq in Hin by exact Hwf.
  cbn [snd rooms io with_io] in Hin.
  apply disconnect_trace_in in Hin
    as [(sid & room & -> & Hroom & Hb & Hc)|[H _]]; [|now left].
  right. exists sid, room. unfold getStream.
  apply members_leave_all in Hc as [Hne Hc].
  rewrite disconnect_get by exact Hwf.
  rewrite (in_get_some _ (rooms s) sid room Hwf Hroom).
  repeat split; trivial. now apply disconnect_room_broadcaster.
Qed.

Lemma X7_witness :
  (exists snapshot, StreamEnded "s1" = StreamUpdate snapshot)
  \/ exists sid room,
       StreamEnded "s1" = StreamEnded sid
       /\ getStream (state_after init scenario_setup) sid = Some room
       /\ Room.broadcaster room = "A"
       /\ getStream (fst (step (state_after init scenario_setup)
                               (Disconnect "A"))) sid = None
       /\ "B" <> "A"
       /\ In "B" (Io.members (io (state_after init scenario_setup)) sid).
Proof.
  apply (X7_stream_ended_only_for_deleted_rooms
           (state_after init scenario_setup) "A" "B" (StreamEnded "s1")).
  - apply distinct_NoDup. reflexivity.
  - simpl. now left.
Defined.

(** X8: a disconnect leaves the registry as it was exactly when the id of
    the socket is the broadcaster field of no room and in the viewer list
    of none; it then emits nothing.  So a client that gave a [userId]
    other than its socket id when it created or joined a stream leaves no
    trace when it disconnects. *)
Theorem X8_disconnect_without_effect s socket :
  JsMap.wf (rooms s) ->
  let result := step s (Disconnect socket) in
  let unknown :=
    forall k room, In (k, room) (rooms s) ->
                   Room.broadcaster room <> socket
                   /\ ~ In socket (Room.viewers room) in
  (rooms (fst result) = rooms s <-> unknown)
  /\ (unknown -> snd result = []).
Proof.
  intros Hwf result unknown. subst result unknown. split; [split|].
  - intros Hsame k room Hin.
    pose proof (in_get_some _ (rooms s) k room Hwf Hin) as Hget.
    pose proof (disconnect_get socket s k Hwf) as Hafter.
    rewrite Hsame, Hget in Hafter. symmetry in Hafter.
    apply disconnect_room_some in Hafter
      as (Hb & _ & _ & _ & _ & [[_ Hn]|(before & after & Hv & _ & Hv')]).
    + now split.
    + exfalso. rewrite Hv in Hv'.
      apply (f_equal (@List.length string)) in Hv'.
      rewrite !length_app in Hv'. simpl in Hv'. lia.
  - intros Hall. now rewrite disconnect_stranger.
  - intros Hall. now rewrite disconnect_stranger.
Qed.

Lemma X8_witness :
  let s := state_after init broadcast_setup in
  let result := step s (Disconnect "sockB") in
  let unknown :=
    forall k room, In (k, room) (rooms s) ->
                   Room.broadcaster room <> "sockB"
                   /\ ~ In "sockB" (Room.viewers room) in
  (rooms (fst result) = rooms s <-> unknown)
  /\ (unknown -> snd result = []).
Proof.
  apply (X8_disconnect_without_effect
           (state_after init broadcast_setup) "sockB").
  apply distinct_NoDup. reflexivity.
Defined.

(** X9: a disconnect adds nothing to the registry.  The rooms it leaves
    are the rooms whose broadcaster field is not the socket id, in the
    order they had; each of them has the broadcaster, stream id, title and
    category it had, and its viewers are viewers it had, at most as many
    as before. *)
Theorem X9_disconnect_only_removes s socket :
  JsMap.wf (rooms s) ->
  let s' := fst (step s (Disconnect socket)) in
  live_ids s' = map fst (filter (survives socket) (rooms s))
  /\ forall sid room',
       getStream s' sid = Some room' ->
       exists room,
         getStream s sid = Some room
         /\ Room.broadcaster room <> socket
         /\ Room.broadcaster room' = Room.broadcaster room
         /\ Room.streamId room' = Room.streamId room
         /\ Room.title room' = Room.title room
         /\ Room.category room' = Room.category room
         /\ incl (Room.viewers room') (Room.viewers room)
         /\ List.length (Room.viewers room')
            <= List.length (Room.viewers room).
Proof.
  intros Hwf s'. subst s'. split.
  - rewrite live_ids_keys. cbn [step].
    rewrite handleDisconnect_eq by exact Hwf.
    apply keys_rooms_after_disconnect.
  - intros sid room'. unfold getStream.
    rewrite disconnect_get by exact Hwf.
    destruct (JsMap.get (rooms s) sid) as [room|]; [|discriminate].
    intros Hd. exists room.
    apply disconnect_room_some in Hd
      as (Hb & Hb' & Hs & Ht & Hc
          & [[-> _]|(before & after & Hv & _ & Hv')]).
    + repeat split; trivial. apply incl_refl.
    + repeat split; trivial.
      * rewrite Hv, Hv'. intros x Hx.
        apply in_app_iff in Hx. apply in_app_iff. simpl. tauto.
      * rewrite Hv, Hv', !length_app. simpl. lia.
Qed.

Lemma X9_witness :
  let s := state_after init two_rooms_setup in
  let s' := fst (step s (Disconnect "A")) in
  live_ids s' = ["s2"]
  /\ forall sid room',
       getStream s' sid = Some room' ->
       exists room,
         getStream s sid = Some room
         /\ Room.broadcaster room <> "A"
         /\ Room.broadcaster room' = Room.broadcaster room
         /\ Room.streamId room' = Room.streamId room
         /\ Room.title room' = Room.title room
         /\ Room.category room' = Room.category room
         /\ incl (Room.viewers room') (Room.viewers room)
         /\ List.length (Room.viewers room')
            <= List.length (Room.viewers room).
Proof.
  apply (X9_disconnect_only_removes
           (state_after init two_rooms_setup) "A").
  apply distinct_NoDup. reflexivity.
Defined.

(** ** Joining and leaving *)

Lemma findIndex_append socketId l :
  ~ In socketId l ->
  Js.findIndex (fun id => String.eqb id socketId) (l ++ [socketId])
  = Some (List.length l).
Proof.
  induction l as [|x l IH]; simpl.
  - now rewrite String.eqb_refl.
  - intros Hn. destruct (String.eqb_spec x socketId) as [->|Hne].
    + exfalso. apply Hn. now left.
    + rewrite IH by tauto. reflexivity.
Qed.

(** X10: when a socket joins a stream under its own socket id, as a viewer
    of a room it does not broadcast, and then disconnects, the room has as
    many viewers as before the join, and the same broadcaster, title and
    category; if the id was not among the viewers before, the room is
    exactly as it was. *)
Theorem X10_join_then_disconnect s socket sid room :
  JsMap.wf (rooms s) ->
  getStream s sid = Some room ->
  Room.broadcaster room <> socket ->
  let joined :=
    fst (step s (Message socket (JoinStreamEv (JoinStream.mk sid socket)))) in
  let left := fst (step joined (Disconnect socket)) in
  exists room',
    getStream left sid = Some room'
    /\ List.length (Room.viewers room') = List.length (Room.viewers room)
    /\ Room.broadcaster room' = Room.broadcaster room
    /\ Room.title room' = Room.title room
    /\ Room.category room' = Room.category room
    /\ (~ In socket (Room.viewers room) -> room' = room).
Proof.
  intros Hwf Hget Hb joined left. unfold getStream in *.
  assert (JsMap.wf (rooms joined)) as Hwf' by now apply step_wf.
  assert (JsMap.get (rooms joined) sid
          = Some (Room.with_viewers room (Room.viewers room ++ [socket])))
    as Hjoined.
  { subst joined. rewrite (join_found socket sid socket room s Hget).
    apply get_set_eq. }
  subst left. rewrite disconnect_get, Hjoined by exact Hwf'.
  destruct (in_dec string_dec socket (Room.viewers room)) as [Hin|Hn].
  - destruct (disconnect_room_viewer socket
                (Room.with_viewers room (Room.viewers room ++ [socket])))
      as (before & after & Hv & _ & Hd); trivial.
    { simpl. apply in_app_iff. now left. }
    rewrite Hd. eexists. split; [reflexivity|]. simpl in *.
    repeat split; trivial; [|contradiction].
    apply (f_equal (@List.length string)) in Hv.
    rewrite !length_app in *. simpl in Hv. lia.
  - exists room. unfold disconnect_room. simpl.
    apply String.eqb_neq in Hb. rewrite Hb.
    rewrite findIndex_append by trivial.
    rewrite (splice_one (Room.viewers room) [] socket), app_nil_r.
    destruct room. repeat split; trivial.
Qed.

Lemma X10_witness :
  let s := state_after init two_rooms_setup in
  let joined :=
    fst (step s (Message "A" (JoinStreamEv (JoinStream.mk "s2" "A")))) in
  let left := fst (step joined (Disconnect "A")) in
  getStream left "s2" = getStream s "s2".
Proof.
  intros s joined left.
  destruct (X10_join_then_disconnect
              s "A" "s2" (Room.mk "C" ["B"] "s2" (Some "chess") None))
    as (room' & Hleft & _ & _ & _ & _ & Hsame).
  - apply distinct_NoDup. reflexivity.
  - reflexivity.
  - simpl. discriminate.
  - fold joined left in Hleft. rewrite Hleft, Hsame; [reflexivity|].
    simpl. intros [H|[]]. discriminate.
Defined.
